(** * Dehradun shortest-route finder: a shallow embedding of [app.py]

    The script is a thin Streamlit front end over OSMnx, NetworkX and
    folium.  Its own functions are embedded below as Rocq functions:

    - pure functions that may raise ([get_route_length_km],
      [create_route_map]) return a [result];
    - functions that talk to Streamlit or to a library
      ([load_dehradun_graph], [get_shortest_route], [main]) live in a
      small writer-and-exception monad [script] whose log records every
      Streamlit call and every library call, in program order;
    - what the outside world answers (the geodata service, the user's
      widgets, the nearest-node query, the shortest-path search) is a
      record [world] of oracles.

    Numbers are exact rationals ([Q]); Python's floats are idealised
    in the arithmetic.  The readout [:.2f] formats the binary64 value of
    the number it is given, as Python does. *)

From Stdlib Require Import QArith Qround Qabs.
From stdpp Require Import gmap strings list fin_maps sets relations pretty.

Local Open Scope Z_scope.
Local Open Scope string_scope.
Local Open Scope list_scope.

(** ** Python outcomes *)

Module Py.

(** The exception classes the script can meet.  All of them derive from
    Python's [Exception]; Streamlit's stop signal does not and is a
    separate outcome below. *)
Inductive exn_class : Type :=
  | NetworkXNoPath
  | NodeNotFound
  | AttributeError
  | KeyError
  | IndexError
  | ZeroDivisionError
  | OtherError (name : string).

Record exn : Type := Exn { exn_cls : exn_class; exn_msg : string }.

(** What evaluating a Python expression gives: a value, a raised
    [Exception], or the script-control signal raised by [st.stop()]. *)
Inductive result (A : Type) : Type :=
  | Val (a : A)
  | Exc (e : exn)
  | Stop.

Arguments Val {A} a.
Arguments Exc {A} e.
Arguments Stop {A}.

Definition rbind {A B} (m : result A) (f : A -> result B) : result B :=
  match m with
  | Val a => f a
  | Exc e => Exc e
  | Stop => Stop
  end.

Definition is_Val {A} (m : result A) : Prop := exists a, m = Val a.
Definition raises {A} (m : result A) : Prop := exists e, m = Exc e.

End Py.
Export Py.

#[global] Instance result_ret : MRet result := fun _ a => Val a.
#[global] Instance result_bind : MBind result := fun _ _ f m => rbind m f.

(** A left-to-right loop with an accumulator, as a Python [for] that
    updates a local variable; the first exception ends the loop. *)
Fixpoint for_loop {A I} (body : A -> I -> result A) (acc : A) (idxs : list I)
  : result A :=
  match idxs with
  | [] => Val acc
  | i :: rest => acc' ← body acc i; for_loop body acc' rest
  end.

(** [xs[i]] on a Python list. *)
Definition py_index {A} (xs : list A) (i : nat) : result A :=
  match xs !! i with
  | Some x => Val x
  | None => Exc (Exn IndexError "list index out of range")
  end.

(** [a / b], Python's true division. *)
Definition py_truediv (a b : Q) : result Q :=
  if Qeq_bool b 0 then Exc (Exn ZeroDivisionError "division by zero")
  else Val (a / b)%Q.

(** [sum(xs)]: starts from 0 and adds from the left. *)
Definition py_sum (xs : list Q) : Q := fold_left Qplus xs 0%Q.

(** ** Graphs, as NetworkX stores them *)

Abbreviation node := Z.

(** An attribute dictionary.  Only the numeric attributes are kept
    (['length'] on edges, ['y'] and ['x'] on nodes); any of them may be
    absent. *)
Abbreviation attrs := (gmap string Q).

(** [nx.DiGraph]: a node table and one attribute dictionary per ordered
    pair of nodes. *)
Record DiGraph : Type := MkDiGraph {
  g_node : gmap node attrs;
  g_adj : gmap (node * node) attrs
}.

(** [nx.MultiDiGraph], the raw OSMnx graph: parallel edges are told apart
    by a key; [mg_edges] lists the edges in the order NetworkX iterates
    over them. *)
Record MultiDiGraph : Type := MkMultiDiGraph {
  mg_node : gmap node attrs;
  mg_edges : list (node * node * Z * attrs)
}.

Definition has_node (G : DiGraph) (n : node) : Prop := is_Some (g_node G !! n).
Definition has_edge (G : DiGraph) (u v : node) : Prop :=
  is_Some (g_adj G !! (u, v)).

(** Every edge joins two nodes of the graph (NetworkX adds the end points
    of an edge when it adds the edge). *)
Definition wf_graph (G : DiGraph) : Prop :=
  forall u v, has_edge G u v -> has_node G u /\ has_node G v.

(** [G.edges()]: the ordered pairs that carry an edge. *)
Definition edges (G : DiGraph) : list (node * node) :=
  (map_to_list (g_adj G)).*1.

(** A Python object as [get_edge_data] may return it: an edge's attribute
    dictionary, or the caller's default. *)
Inductive pyobj : Type :=
  | PyDict (d : attrs)
  | PyInt (z : Z).

(** [G.get_edge_data(u, v, default)]: the attribute dictionary of the
    edge, the caller's default when there is no such edge. *)
Definition get_edge_data (G : DiGraph) (u v : node) (dflt : pyobj) : pyobj :=
  match g_adj G !! (u, v) with
  | Some d => PyDict d
  | None => dflt
  end.

(** [obj.get(key, default)]: defined on dictionaries only. *)
Definition py_get (obj : pyobj) (key : string) (dflt : Q) : result Q :=
  match obj with
  | PyDict d => Val (default dflt (d !! key))
  | PyInt _ =>
      Exc (Exn AttributeError "'int' object has no attribute 'get'")
  end.

(** ** The distance aggregator *)

Abbreviation route := (list node).

(** One turn of the loop of [get_route_length_km]. *)
Definition add_edge_length (G : DiGraph) (r : route) (length : Q) (i : nat)
  : result Q :=
  u ← py_index r i;
  v ← py_index r (i + 1);
  let edge_data := get_edge_data G u v (PyInt 0) in
  x ← py_get edge_data "length" 0%Q;
  Val (length + x)%Q.

Definition get_route_length_km (G : DiGraph) (r : route) : result Q :=
  length ← for_loop (add_edge_length G r) 0%Q (seq 0 (List.length r - 1));
  py_truediv length 1000.

(** ** The map renderer *)

(** What folium draws on a map. *)
Inductive map_child : Type :=
  | PolyLine (locations : list (Q * Q)) (color : string) (weight : Z)
      (opacity : Q)
  | Marker (location : Q * Q) (popup : string) (icon_color : string).

(** [folium.Map]: the initial view and the layers added so far, oldest
    first. *)
Record MapView : Type := MkMap {
  map_location : Q * Q;
  map_zoom_start : Z;
  map_children : list map_child
}.

(** [child.add_to(m)]. *)
Definition add_to (child : map_child) (m : MapView) : MapView :=
  MkMap (map_location m) (map_zoom_start m) (map_children m ++ [child]).

(** [G.nodes[n]]. *)
Definition nodes_getitem (G : DiGraph) (n : node) : result attrs :=
  match g_node G !! n with
  | Some d => Val d
  | None => Exc (Exn KeyError (pretty n))
  end.

(** [d[key]] on an attribute dictionary. *)
Definition attrs_getitem (d : attrs) (key : string) : result Q :=
  match d !! key with
  | Some x => Val x
  | None => Exc (Exn KeyError ("'" +:+ key +:+ "'"))
  end.

(** A list comprehension [[f(x) for x in xs]]. *)
Fixpoint list_comp {A B} (f : A -> result B) (xs : list A) : result (list B) :=
  match xs with
  | [] => Val []
  | x :: xs' => y ← f x; ys ← list_comp f xs'; Val (y :: ys)
  end.

(** [xs[-1]] on a Python list. *)
Definition py_index_last {A} (xs : list A) : result A :=
  match last xs with
  | Some x => Val x
  | None => Exc (Exn IndexError "list index out of range")
  end.

(** [(G.nodes[n]['y'], G.nodes[n]['x'])]. *)
Definition node_coords (G : DiGraph) (n : node) : result (Q * Q) :=
  d ← nodes_getitem G n;
  y ← attrs_getitem d "y";
  d' ← nodes_getitem G n;
  x ← attrs_getitem d' "x";
  Val (y, x).

Definition create_route_map (G : DiGraph) (r : route)
    (start_name end_name : string) : result MapView :=
  route_coords ← list_comp (node_coords G) r;
  center_lat ← py_truediv (py_sum (route_coords.*1))
                          (inject_Z (Z.of_nat (List.length route_coords)));
  center_lon ← py_truediv (py_sum (route_coords.*2))
                          (inject_Z (Z.of_nat (List.length route_coords)));
  let route_map := MkMap (center_lat, center_lon) 13 [] in
  let route_map := add_to (PolyLine route_coords "blue" 6 0.7%Q) route_map in
  first ← py_index route_coords 0;
  let route_map :=
    add_to (Marker first ("Start: " +:+ start_name) "green") route_map in
  final ← py_index_last route_coords;
  let route_map :=
    add_to (Marker final ("End: " +:+ end_name) "red") route_map in
  Val route_map.

(** ** The location catalog *)

(** A Python dictionary from names to [(lat, lon)], in insertion order. *)
Definition get_locations : list (string * (Q * Q)) :=
  [ ("Clock Tower", (30.3253, 78.0413)%Q);
    ("ISBT", (30.2881, 78.0428)%Q);
    ("Rajpur Road", (30.3440, 78.0689)%Q);
    ("Pacific Mall", (30.3387, 78.0554)%Q);
    ("Forest Research Institute", (30.3417, 77.9996)%Q);
    ("Robber's Cave", (30.3752, 78.0689)%Q);
    ("Sahastradhara", (30.3879, 78.1231)%Q);
    ("Mussoorie Road", (30.4059, 78.0300)%Q);
    ("Buddha Temple", (30.3358, 78.0433)%Q);
    ("Paltan Bazaar", (30.3218, 78.0440)%Q) ].

(** [locations[name]]. *)
Fixpoint dict_getitem {V} (d : list (string * V)) (name : string) : result V :=
  match d with
  | [] => Exc (Exn KeyError ("'" +:+ name +:+ "'"))
  | (k, v) :: d' => if String.eqb k name then Val v else dict_getitem d' name
  end.

(** ** Building the simple graph: [nx.DiGraph(G)] *)

(** [G.add_node(n)] when no attribute is given: a known node keeps its
    attributes. *)
Definition add_node (G : DiGraph) (n : node) : DiGraph :=
  match g_node G !! n with
  | Some _ => G
  | None => MkDiGraph (<[n := ∅]> (g_node G)) (g_adj G)
  end.

(** One step of [DiGraph.add_edges_from]: the end points are added when
    missing, and the attributes [dd] update the dictionary the pair
    already has (an empty one when the pair is new). *)
Definition add_edge (G : DiGraph) (e : node * node * Z * attrs) : DiGraph :=
  let '(u, v, _, dd) := e in
  let G := add_node (add_node G u) v in
  let datadict := default ∅ (g_adj G !! (u, v)) in
  MkDiGraph (g_node G) (<[(u, v) := dd ∪ datadict]> (g_adj G)).

(** [nx.DiGraph(G)] for a multigraph [G]: all nodes are added, then every
    keyed edge in iteration order, then the node attributes are copied. *)
Definition nx_DiGraph (raw : MultiDiGraph) : DiGraph :=
  let G := MkDiGraph ((fun _ : attrs => (∅ : attrs)) <$> mg_node raw) ∅ in
  let G := foldl add_edge G (mg_edges raw) in
  MkDiGraph (union_with (fun dd old => Some (dd ∪ old)) (mg_node raw) (g_node G))
            (g_adj G).

(** ** The outside world and the script monad *)

(** Everything the script does that can be seen from outside, in program
    order: Streamlit calls and calls into OSMnx and NetworkX. *)
Inductive event : Type :=
  | StTitle (body : string)
  | StError (body : string)
  | StWarning (body : string)
  | StSelectbox (label : string) (options : list string) (index : nat)
  | StButton (label : string)
  | StSubheader (body : string)
  | StMarkdown (body : string)
  | FoliumStatic (m : MapView) (width height : Z)
  | OxGraphFromPlace (place network_type : string)
  | OxNearestNodes (X Y : Q)
  | NxShortestPath (source target : node) (weight : string).

(** What the libraries and the user answer. *)
Record world : Type := MkWorld {
  ox_graph_from_place : string -> string -> result MultiDiGraph;
  ox_nearest_nodes : DiGraph -> Q -> Q -> result node;
  nx_shortest_path : DiGraph -> node -> node -> string -> result route;
  selectbox_choice : string -> list string -> nat -> string;
  button_pressed : string -> bool
}.

(** A run of script code: what it logged and how it ended. *)
Record script (A : Type) : Type := Script {
  log : list event;
  outcome : result A
}.

Arguments Script {A} log outcome.
Arguments log {A} s.
Arguments outcome {A} s.

Definition sbind {A B} (m : script A) (f : A -> script B) : script B :=
  match outcome m with
  | Val a => Script (log m ++ log (f a)) (outcome (f a))
  | Exc e => Script (log m) (Exc e)
  | Stop => Script (log m) Stop
  end.

#[global] Instance script_ret : MRet script := fun _ a => Script [] (Val a).
#[global] Instance script_bind : MBind script := fun _ _ f m => sbind m f.

(** A call that is logged as [ev] and answers [r]. *)
Definition call {A} (ev : event) (r : result A) : script A := Script [ev] r.

#[global] Instance exn_class_eq_dec : EqDecision exn_class.
Proof. solve_decision. Defined.

(** [try: body except cls: handler]; [catches] says which exceptions the
    clause matches.  The stop signal is never caught. *)
Definition try_except {A} (body : script A) (catches : exn -> bool)
    (handler : exn -> script A) : script A :=
  match outcome body with
  | Exc e =>
      if catches e
      then Script (log body ++ log (handler e)) (outcome (handler e))
      else body
  | _ => body
  end.

(** [except Exception]. *)
Definition any_Exception (e : exn) : bool := true.
(** [except cls] for one of the classes above (none derives from
    another). *)
Definition instance_of (cls : exn_class) (e : exn) : bool :=
  bool_decide (exn_cls e = cls).

Definition st_title (body : string) : script unit := call (StTitle body) (Val tt).
Definition st_error (body : string) : script unit := call (StError body) (Val tt).
Definition st_warning (body : string) : script unit :=
  call (StWarning body) (Val tt).
Definition st_subheader (body : string) : script unit :=
  call (StSubheader body) (Val tt).
Definition st_markdown (body : string) : script unit :=
  call (StMarkdown body) (Val tt).
Definition folium_static (m : MapView) (width height : Z) : script unit :=
  call (FoliumStatic m width height) (Val tt).
Definition st_stop {A} : script A := Script [] Stop.
Definition st_selectbox (w : world) (label : string) (options : list string)
    (index : nat) : script string :=
  call (StSelectbox label options index)
       (Val (selectbox_choice w label options index)).
Definition st_button (w : world) (label : string) : script bool :=
  call (StButton label) (Val (button_pressed w label)).

(** ** The graph provider

    [@st.cache_data] only memoises the call; one run of the function is
    modelled. *)

Definition load_dehradun_graph (w : world) : script (option DiGraph) :=
  try_except
    (G ← call (OxGraphFromPlace "Dehradun, Uttarakhand, India" "drive")
              (ox_graph_from_place w "Dehradun, Uttarakhand, India" "drive");
     let G_simple := nx_DiGraph G in
     mret (Some G_simple))
    any_Exception
    (fun e =>
       st_error ("Error loading map data: " +:+ exn_msg e);;
       mret None).

(** ** The route finder *)

Definition get_shortest_route (w : world) (G : DiGraph)
    (origin_node destination_node : node) : script (option route) :=
  try_except
    (r ← call (NxShortestPath origin_node destination_node "length")
              (nx_shortest_path w G origin_node destination_node "length");
     mret (Some r))
    (instance_of NetworkXNoPath)
    (fun _ =>
       st_error "No path exists between these locations.";;
       mret None).

(** ** The orchestrator *)

(** Rounding to the nearest integer, ties to even. *)
Definition round_half_even (q : Q) : Z :=
  let f := Qfloor q in
  match (q - inject_Z f ?= 1 # 2)%Q with
  | Lt => f
  | Gt => f + 1
  | Eq => if Z.even f then f else f + 1
  end.

(** The exponent [e] of the binary64 number nearest to [q]: the least
    one allowed, -1074, for the subnormal numbers, and otherwise the [e]
    with [2^52 <= |q| / 2^e < 2^53]. *)
Definition binary64_exponent (q : Q) : Z :=
  let e0 := Z.log2 (Z.abs (Qnum q)) - Z.log2 (Zpos (Qden q)) - 52 in
  let e := if Qle_bool (inject_Z (2 ^ 52)) (Qabs q * Qpower 2 (- e0))
           then e0 else e0 - 1 in
  Z.max e (-1074).

(** The value of the float that holds [q]: the multiple of
    [2^binary64_exponent q] nearest to [q], ties to even. *)
Definition to_binary64 (q : Q) : Q :=
  if Qeq_bool q 0 then q
  else
    let e := binary64_exponent q in
    (inject_Z (round_half_even (q * Qpower 2 (- e))) * Qpower 2 e)%Q.

(** The format specification [:.2f].  Python formats the float, so the
    number is first taken to binary64 (this is where 1.015 becomes a
    little less than 1.015) and the decimal expansion of that value is
    then rounded to two places, ties to even.  A magnitude that rounds
    past the largest float prints as [inf]. *)
Definition format_2f (q : Q) : string :=
  let sign := if Qlt_le_dec q 0 then "-" else "" in
  if Qle_bool (inject_Z (2 ^ 1024 - 2 ^ 970)) (Qabs q)
  then sign +:+ "inf"
  else
    let n := round_half_even (Qabs (to_binary64 q) * 100) in
    let cents := n mod 100 in
    sign +:+ pretty (n / 100) +:+ "." +:+
    (if (cents <? 10)%Z then "0" else "") +:+ pretty cents.

Definition main (w : world) : script unit :=
  st_title "🚗 Dehradun Shortest Route Finder";;
  G ← load_dehradun_graph w;
  G ← match G with
      | None => st_stop
      | Some G => mret G
      end;
  let locations := get_locations in
  let location_names := locations.*1 in
  start_location ← st_selectbox w "Select start location:" location_names 0;
  end_location ← st_selectbox w "Select destination:" location_names 1;
  (if String.eqb start_location end_location
   then st_warning "Start and destination must be different.";; st_stop
   else mret tt);;
  pressed ← st_button w "Find Shortest Route";
  if pressed : bool then
    start_coords ← Script [] (dict_getitem locations start_location);
    end_coords ← Script [] (dict_getitem locations end_location);
    origin_node ← call (OxNearestNodes start_coords.2 start_coords.1)
                       (ox_nearest_nodes w G start_coords.2 start_coords.1);
    destination_node ← call (OxNearestNodes end_coords.2 end_coords.1)
                            (ox_nearest_nodes w G end_coords.2 end_coords.1);
    r ← get_shortest_route w G origin_node destination_node;
    r ← match r with
        | None => st_error "No route found.";; st_stop
        | Some r => mret r
        end;
    distance_km ← Script [] (get_route_length_km G r);
    route_map ← Script [] (create_route_map G r start_location end_location);
    st_subheader ("Shortest Route from " +:+ start_location +:+ " to " +:+
                  end_location);;
    folium_static route_map 800 500;;
    st_markdown ("**Distance:** " +:+ format_2f distance_km +:+ " km")
  else mret tt.

(** ** Routes and reachability *)

(** The route invariant of the data model: every consecutive pair
    [(r[i], r[i+1])] is an edge of the graph. *)
Definition route_connected (G : DiGraph) (r : route) : Prop :=
  forall i u v, r !! i = Some u -> r !! S i = Some v -> has_edge G u v.

(** A route from [s] to [t]. *)
Definition route_between (G : DiGraph) (s t : node) (r : route) : Prop :=
  head r = Some s /\ last r = Some t /\ route_connected G r.

(** The routes that start at [s], built one edge at a time. *)
Inductive walk (G : DiGraph) (s : node) : node -> route -> Prop :=
  | walk_start : walk G s s [s]
  | walk_step u v p :
      walk G s u p -> has_edge G u v -> walk G s v (p ++ [v]).

(** [t] can be reached from [s] along edges. *)
Definition reachable (G : DiGraph) : relation node := rtc (has_edge G).

(** Every node of the route is a node of the graph and carries both
    coordinates. *)
Definition route_located (G : DiGraph) (r : route) : Prop :=
  forall n, n ∈ r ->
    exists d y x, g_node G !! n = Some d /\ d !! "y" = Some y /\ d !! "x" = Some x.

(** ** What the script relies on from [nx.shortest_path]

    The search itself is NetworkX's.  The script depends on its
    documented outcomes for the weight ['length']: [NodeNotFound] for an
    end point outside the graph, the one-node path from a node to itself,
    [NetworkXNoPath] when the target cannot be reached, and otherwise a
    path along edges of the graph. *)
Record shortest_path_contract
    (sp : DiGraph -> node -> node -> string -> result route) : Prop := {
  sp_node_not_found G s t :
    ~ (has_node G s /\ has_node G t) ->
    exists msg, sp G s t "length" = Exc (Exn NodeNotFound msg);
  sp_same_node G s :
    has_node G s -> sp G s s "length" = Val [s];
  sp_no_path G s t :
    has_node G s -> has_node G t -> ~ reachable G s t ->
    exists msg, sp G s t "length" = Exc (Exn NetworkXNoPath msg);
  sp_found G s t :
    has_node G s -> has_node G t -> reachable G s t ->
    exists r, sp G s t "length" = Val r /\ route_between G s t r
}.

(** ** A reference search

    An executable search that meets the contract: Bellman-Ford relaxation
    with the path kept next to each distance.  NetworkX reads a missing
    weight as 1. *)
Module Reference.

Definition edge_weight (weight : string) (d : attrs) : Q :=
  default 1%Q (d !! weight).

(** Try to improve the entry of [v] through the edge [(u, v)]. *)
Definition relax (weight : string) (dist : gmap node (Q * route))
    (e : node * node * attrs) : gmap node (Q * route) :=
  let '(u, v, d) := e in
  match dist !! u with
  | None => dist
  | Some (du, pu) =>
      let c := (du + edge_weight weight d)%Q in
      match dist !! v with
      | Some (dv, _) =>
          if Qlt_le_dec c dv then <[v := (c, pu ++ [v])]> dist else dist
      | None => <[v := (c, pu ++ [v])]> dist
      end
  end.

(** One round: every edge once. *)
Definition relax_all (weight : string) (G : DiGraph)
    (dist : gmap node (Q * route)) : gmap node (Q * route) :=
  foldl (relax weight) dist (map_to_list (g_adj G)).

(** As many rounds as the graph has edges. *)
Definition distances (weight : string) (G : DiGraph) (s : node)
  : gmap node (Q * route) :=
  Nat.iter (size (g_adj G)) (relax_all weight G) {[ s := (0%Q, [s]) ]}.

Definition shortest_path (G : DiGraph) (s t : node) (weight : string)
  : result route :=
  if decide (has_node G s /\ has_node G t) then
    if decide (s = t) then Val [s]
    else
      match distances weight G s !! t with
      | Some (_, p) => Val p
      | None =>
          Exc (Exn NetworkXNoPath
                 ("No path between " +:+ pretty s +:+ " and " +:+ pretty t +:+ "."))
      end
  else
    Exc (Exn NodeNotFound
           ("Either source " +:+ pretty s +:+ " or target " +:+ pretty t +:+
            " is not in G")).

(** Every entry holds a route from [s] to its key. *)
Definition entries_are_walks (G : DiGraph) (s : node)
    (dist : gmap node (Q * route)) : Prop :=
  forall v d p, dist !! v = Some (d, p) -> walk G s v p.

(** A set of nodes that no edge leaves. *)
Definition edge_closed (G : DiGraph) (D : gset node) : Prop :=
  forall u v, has_edge G u v -> u ∈ D -> v ∈ D.

(** The nodes some edge points to. *)
Definition targets (G : DiGraph) : gset node :=
  list_to_set ((map_to_list (g_adj G)).*1.*2).

End Reference.

(** ** Reading the distance loop

    The loop of [get_route_length_km], unrolled along the route instead
    of along the indices; the two are shown equal below. *)
Fixpoint sum_lengths (G : DiGraph) (r : route) (acc : Q) : result Q :=
  match r with
  | u :: (v :: _) as r' =>
      x ← py_get (get_edge_data G u v (PyInt 0)) "length" 0%Q;
      sum_lengths G r' (acc + x)%Q
  | _ => Val acc
  end.

(** What the edge [(u, v)] adds to the sum: its ['length'], 0 when the
    attribute is missing. *)
Definition edge_length (G : DiGraph) (u v : node) : Q :=
  match g_adj G !! (u, v) with
  | Some d => default 0%Q (d !! "length")
  | None => 0%Q
  end.

Fixpoint edge_lengths (G : DiGraph) (r : route) : list Q :=
  match r with
  | u :: (v :: _) as r' => edge_length G u v :: edge_lengths G r'
  | _ => []
  end.

(** Every ['length'] met along the route is non-negative. *)
Definition lengths_nonneg (G : DiGraph) (r : route) : Prop :=
  forall i u v d x,
    r !! i = Some u -> r !! S i = Some v ->
    g_adj G !! (u, v) = Some d -> d !! "length" = Some x -> (0 <= x)%Q.

(** The exception raised by [(0).get(...)]. *)
Definition int_has_no_get : exn :=
  Exn AttributeError "'int' object has no attribute 'get'".

(** ** Sample data

    A three-junction town with an isolated fourth junction, the raw
    multigraph it comes from, and worlds built around them. *)
Module Sample.

Definition at_ (y x : Q) : attrs := {[ "y" := y; "x" := x ]}.

(** Two parallel edges from 1 to 2; the edge from 2 to 3 has no
    ['length']. *)
Definition town_raw : MultiDiGraph :=
  MkMultiDiGraph
    {[ 1 := at_ 30.3253 78.0413; 2 := at_ 30.3000 78.0420;
       3 := at_ 30.2881 78.0428; 4 := at_ 30.4059 78.0300 ]}
    [ (1, 2, 0, {[ "length" := 1500%Q; "lanes" := 2%Q ]});
      (1, 2, 1, {[ "length" := 1700%Q ]});
      (2, 3, 0, ∅);
      (3, 1, 0, {[ "length" := 2500%Q ]}) ].

Definition town : DiGraph := nx_DiGraph town_raw.

(** Two junctions and no street. *)
Definition gap_graph : DiGraph := MkDiGraph {[ 1 := ∅; 2 := ∅ ]} ∅.

(** The user's choices and the nearest-node answers are given by name;
    the search is the reference search. *)
Definition town_world (fetch : result MultiDiGraph) (start_name end_name : string)
    (pressed : bool) (near : Q -> Q -> result node) : world :=
  MkWorld (fun _ _ => fetch) (fun _ => near) Reference.shortest_path
    (fun label _ _ =>
       if String.eqb label "Select start location:" then start_name
       else end_name)
    (fun _ => pressed).

(** Clock Tower is junction 1 and ISBT junction 3. *)
Definition near_town (X Y : Q) : result node :=
  if Qeq_bool Y 30.3253 then Val 1
  else if Qeq_bool Y 30.2881 then Val 3
  else Val 2.

(** Clock Tower is junction 1 and ISBT the isolated junction 4. *)
Definition near_isolated (X Y : Q) : result node :=
  if Qeq_bool Y 30.3253 then Val 1 else Val 4.

End Sample.

(** ** Reading a run *)

(** The route search was invoked. *)
Definition is_route_search (ev : event) : bool :=
  match ev with
  | NxShortestPath _ _ _ => true
  | _ => false
  end.

(** A map was handed to the page. *)
Definition is_map_display (ev : event) : bool :=
  match ev with
  | FoliumStatic _ _ _ => true
  | _ => false
  end.

(** A distance readout, or the heading of a result. *)
Definition is_result_text (ev : event) : bool :=
  match ev with
  | StMarkdown _ | StSubheader _ => true
  | _ => false
  end.

(** A widget the user can act on. *)
Definition is_widget (ev : event) : bool :=
  match ev with
  | StSelectbox _ _ _ | StButton _ => true
  | _ => false
  end.

(** Modelled from the spec: the orchestrator's two states.  The script
    keeps no state variable; a run ends in [Routed] when it displayed a
    map and in [Idle] otherwise. *)
Inductive orchestrator_state : Type := Idle | Routed.

Definition state_after (run : script unit) : orchestrator_state :=
  if existsb is_map_display (log run) then Routed else Idle.

Definition place : string := "Dehradun, Uttarakhand, India".
Definition location_names : list string := get_locations.*1.

(** [k], with [l] logged before it. *)
Definition after {A} (l : list event) (k : script A) : script A :=
  Script (l ++ log k) (outcome k).

(** The run loads [G], the user picks two different names and asks for
    the route, and the names resolve to the nodes [o] and [d]. *)
Definition run_resolves (w : world) (G : DiGraph) (o d : node) : Prop :=
  exists raw sc ec,
    ox_graph_from_place w place "drive" = Val raw /\
    G = nx_DiGraph raw /\
    selectbox_choice w "Select start location:" location_names 0 <>
    selectbox_choice w "Select destination:" location_names 1 /\
    button_pressed w "Find Shortest Route" = true /\
    dict_getitem get_locations
      (selectbox_choice w "Select start location:" location_names 0) = Val sc /\
    dict_getitem get_locations
      (selectbox_choice w "Select destination:" location_names 1) = Val ec /\
    ox_nearest_nodes w G sc.2 sc.1 = Val o /\
    ox_nearest_nodes w G ec.2 ec.1 = Val d.

Definition title : string := "🚗 Dehradun Shortest Route Finder".
Definition no_path_message : string := "No path exists between these locations.".
Definition same_place_warning : string :=
  "Start and destination must be different.".

(** ** Reading the conversion and the map *)

(** The attribute dictionaries of the raw edges from [u] to [v], in
    iteration order. *)
Definition parallel (es : list (node * node * Z * attrs)) (u v : node)
  : list attrs :=
  (fun e => e.2) <$> filter (fun e => e.1.1 = (u, v)) es.

(** Folding parallel edges into one dictionary: a later edge overrides
    the attributes it shares with the earlier ones. *)
Definition collapse (old : option attrs) (dds : list attrs) : option attrs :=
  foldl (fun acc dd => Some (dd ∪ default ∅ acc)) old dds.

(** [c] is the [(lat, lon)] of the node [n]. *)
Definition located_at (G : DiGraph) (n : node) (c : Q * Q) : Prop :=
  exists d, g_node G !! n = Some d /\ d !! "y" = Some c.1 /\ d !! "x" = Some c.2.

(** The arithmetic mean. *)
Definition mean (xs : list Q) : Q :=
  (foldr Qplus 0 xs / inject_Z (Z.of_nat (length xs)))%Q.

Definition division_by_zero : exn := Exn ZeroDivisionError "division by zero".

(** Worlds used as instances below. *)
Module Runs.
Import Sample.

(** Clock Tower to ISBT, ISBT resolving to the isolated junction. *)
Definition isolated : world :=
  town_world (Val town_raw) "Clock Tower" "ISBT" true near_isolated.

(** Clock Tower to ISBT through the town. *)
Definition through_town : world :=
  town_world (Val town_raw) "Clock Tower" "ISBT" true near_town.

(** The same name picked twice. *)
Definition same_name : world :=
  town_world (Val town_raw) "ISBT" "ISBT" true near_town.

(** The geodata service cannot be reached. *)
Definition offline : world :=
  town_world (Exc (Exn (OtherError "ConnectionError") "service unreachable"))
    "Clock Tower" "ISBT" true near_town.
End Runs.

(** ** Further readings and sample runs *)

(** Every node of the graph carries both coordinates. *)
Definition graph_located (G : DiGraph) : Prop :=
  forall n, has_node G n ->
    exists d y x, g_node G !! n = Some d /\ d !! "y" = Some y /\ d !! "x" = Some x.

(** An error box was shown. *)
Definition is_error_message (ev : event) : bool :=
  match ev with
  | StError _ => true
  | _ => false
  end.

(** The nearest-node query was made. *)
Definition is_nearest_query (ev : event) : bool :=
  match ev with
  | OxNearestNodes _ _ => true
  | _ => false
  end.

(** The heading of a result, as [main] formats it. *)
Definition route_heading (start_name end_name : string) : string :=
  "Shortest Route from " +:+ start_name +:+ " to " +:+ end_name.

(** The distance readout, as [main] formats it. *)
Definition distance_readout (km : Q) : string :=
  "**Distance:** " +:+ format_2f km +:+ " km".

Module MoreRuns.
Import Sample.

(** The names differ but the button is not pressed. *)
Definition idle : world :=
  town_world (Val town_raw) "Clock Tower" "ISBT" false near_town.

(** Both names resolve to junction 2. *)
Definition near_same (X Y : Q) : result node := Val 2.

Definition same_junction : world :=
  town_world (Val town_raw) "Clock Tower" "ISBT" true near_same.

(** ISBT resolves to a node the graph does not have. *)
Definition near_outside (X Y : Q) : result node :=
  if Qeq_bool Y 30.3253 then Val 1 else Val 9.

Definition outside : world :=
  town_world (Val town_raw) "Clock Tower" "ISBT" true near_outside.

End MoreRuns.

(** * Properties *)

(** ** Routes *)

Section Routes.
Context (G : DiGraph).

Lemma route_connected_nil : route_connected G [].
Proof. intros i u v H. destruct i; discriminate. Qed.

Lemma route_connected_singleton n : route_connected G [n].
Proof. intros i u v _ H. destruct i; discriminate. Qed.

Lemma route_connected_cons u v r :
  route_connected G (u :: v :: r) <->
  has_edge G u v /\ route_connected G (v :: r).
Proof.
  split.
  - intros H. split.
    + by apply (H 0%nat).
    + intros i a b Ha Hb. by apply (H (S i)).
  - intros [Huv H] [|i] a b Ha Hb.
    + simpl in Ha, Hb. by simplify_eq.
    + by apply (H i).
Qed.

Lemma route_connected_snoc r u v :
  last r = Some u -> route_connected G r -> has_edge G u v ->
  route_connected G (r ++ [v]).
Proof.
  intros Hlast Hr Huv i a b Ha Hb.
  rewrite last_lookup in Hlast.
  assert (Hi : (S i < length (r ++ [v]))%nat) by by eapply lookup_lt_Some.
  rewrite length_app in Hi. simpl in Hi.
  destruct (decide (S i < length r)%nat) as [Hlt|Hge].
  - rewrite lookup_app_l in Ha; [|lia].
    rewrite lookup_app_l in Hb; [|lia]. by eapply Hr.
  - assert (S i = length r) as Hlen by lia.
    rewrite lookup_app_l in Ha; [|lia].
    rewrite lookup_app_r in Hb; [|lia].
    rewrite Hlen, Nat.sub_diag in Hb. simpl in Hb.
    rewrite <- Hlen in Hlast. simpl in Hlast. by simplify_eq.
Qed.

Lemma walk_route_between s v p : walk G s v p -> route_between G s v p.
Proof.
  induction 1 as [|u v p _ (Hhd & Hlast & Hr) Huv].
  - repeat split. apply route_connected_singleton.
  - repeat split.
    + destruct p; by simplify_eq/=.
    + apply last_snoc.
    + by eapply route_connected_snoc.
Qed.

Lemma walk_reachable s v p : walk G s v p -> reachable G s v.
Proof.
  induction 1 as [|u v p _ IH Huv]; [done|]. by eapply rtc_r.
Qed.

Lemma route_between_reachable r : forall s t,
  route_between G s t r -> reachable G s t.
Proof.
  induction r as [|u r IH]; intros s t (Hhd & Hlast & Hr); [done|].
  simpl in Hhd. simplify_eq. destruct r as [|v r].
  - simpl in Hlast. by simplify_eq.
  - apply route_connected_cons in Hr as [Huv Hr].
    eapply rtc_l; [exact Huv|]. apply IH. by repeat split.
Qed.
End Routes.

(** ** The reference search meets the contract *)

Section ReferenceSearch.
Context (weight : string) (G : DiGraph) (s : node).

Local Arguments Reference.relax : simpl never.
Local Arguments Reference.relax_all : simpl never.

Abbreviation relax := (Reference.relax weight).
Abbreviation relax_all := (Reference.relax_all weight G).

Abbreviation entries_are_walks := (Reference.entries_are_walks G s).
Abbreviation edge_closed := (Reference.edge_closed G).
Abbreviation targets := (Reference.targets G).

Lemma relax_walks dist u v d :
  g_adj G !! (u, v) = Some d ->
  entries_are_walks dist -> entries_are_walks (relax dist (u, v, d)).
Proof.
  intros Huv Hok. unfold Reference.relax.
  destruct (dist !! u) as [[du pu]|] eqn:Hu; [|done].
  assert (Hnew : walk G s v (pu ++ [v])).
  { eapply walk_step; [by eapply Hok|]. by eexists. }
  assert (Hins : forall c, entries_are_walks (<[v := (c, pu ++ [v])]> dist)).
  { intros c x dx px Hx. destruct (decide (v = x)) as [->|Hne].
    - rewrite lookup_insert_eq in Hx. by simplify_eq.
    - rewrite lookup_insert_ne in Hx by done. by eapply Hok. }
  destruct (dist !! v) as [[dv pv]|]; [destruct Qlt_le_dec|]; auto.
Qed.

Lemma relax_dom dist u v d x :
  x ∈ dom (relax dist (u, v, d)) <->
  x ∈ dom dist \/ (x = v /\ u ∈ dom dist).
Proof.
  unfold Reference.relax.
  destruct (dist !! u) as [[du pu]|] eqn:Hu.
  - apply elem_of_dom_2 in Hu.
    destruct (dist !! v) as [[dv pv]|] eqn:Hv.
    + apply elem_of_dom_2 in Hv.
      destruct Qlt_le_dec; rewrite ?dom_insert_L; set_solver.
    + rewrite dom_insert_L. set_solver.
  - apply not_elem_of_dom in Hu. set_solver.
Qed.

Lemma relax_list_dom_mono l dist :
  dom dist ⊆ dom (foldl relax dist l).
Proof.
  revert dist. induction l as [|[[u v] d] l IH]; intros dist; simpl; [done|].
  etrans; [|apply IH]. intros x Hx. apply relax_dom. by left.
Qed.

Lemma relax_list_dom_target l dist u v d :
  (u, v, d) ∈ l -> u ∈ dom dist -> v ∈ dom (foldl relax dist l).
Proof.
  revert dist. induction l as [|[[u' v'] d'] l IH]; intros dist Hin Hu.
  - by apply elem_of_nil in Hin.
  - simpl. apply elem_of_cons in Hin as [Heq|Hin].
    + simplify_eq. apply relax_list_dom_mono, relax_dom. by right.
    + apply IH; [done|]. apply relax_dom. by left.
Qed.

Lemma relax_list_dom_closed l dist :
  (forall u v d, (u, v, d) ∈ l -> u ∈ dom dist -> v ∈ dom dist) ->
  dom (foldl relax dist l) = dom dist.
Proof.
  revert dist. induction l as [|[[u v] d] l IH]; intros dist Hcl; [done|].
  simpl.
  assert (Hstep : dom (relax dist (u, v, d)) = dom dist).
  { apply set_eq. intros x. rewrite relax_dom. split; [|by left].
    intros [?|[-> Hu]]; [done|]. eapply Hcl; [|done]. by left. }
  rewrite IH; [exact Hstep|]. intros u' v' d' Hin. rewrite Hstep.
  apply (Hcl u' v' d'). by right.
Qed.

Lemma relax_list_dom_upper l dist :
  dom (foldl relax dist l) ⊆ dom dist ∪ list_to_set (l.*1.*2).
Proof.
  revert dist. induction l as [|[[u v] d] l IH]; intros dist; simpl.
  - set_solver.
  - etrans; [apply IH|]. intros x.
    rewrite !elem_of_union, relax_dom. set_solver.
Qed.

Lemma relax_all_walks dist :
  entries_are_walks dist -> entries_are_walks (relax_all dist).
Proof.
  unfold Reference.relax_all.
  assert (Hl : forall u v d, (u, v, d) ∈ map_to_list (g_adj G) ->
                             g_adj G !! (u, v) = Some d).
  { intros u v d. apply elem_of_map_to_list. }
  revert Hl dist. generalize (map_to_list (g_adj G)).
  induction l as [|[[u v] d] l IH]; intros Hl dist Hok; [done|].
  simpl. apply IH.
  - intros u' v' d' Hin. apply Hl. by right.
  - apply relax_walks; [|done]. apply Hl. by left.
Qed.

Lemma relax_all_fixed_closed dist :
  dom (relax_all dist) = dom dist -> edge_closed (dom dist).
Proof.
  intros Heq u v [d Huv] Hu. rewrite <- Heq.
  eapply relax_list_dom_target; [|done].
  by apply elem_of_map_to_list.
Qed.

Lemma relax_all_closed dist :
  edge_closed (dom dist) -> dom (relax_all dist) = dom dist.
Proof.
  intros Hcl. apply relax_list_dom_closed.
  intros u v d Hin. apply Hcl. exists d. by apply elem_of_map_to_list.
Qed.

Lemma size_list_to_set_le (l : list node) :
  (size (list_to_set l : gset node) <= length l)%nat.
Proof.
  induction l as [|x l IH].
  - by rewrite list_to_set_nil, size_empty.
  - rewrite list_to_set_cons, size_union_alt, size_singleton.
    assert (size (list_to_set l ∖ {[x]} : gset node)
            <= size (list_to_set l : gset node))%nat
      by (apply subseteq_size; set_solver).
    cbn [length]. lia.
Qed.

Lemma size_targets : (size targets <= size (g_adj G))%nat.
Proof.
  unfold targets. etrans; [apply size_list_to_set_le|].
  by rewrite !length_fmap, length_map_to_list.
Qed.

Abbreviation rounds k := (Nat.iter k relax_all {[ s := (0%Q, [s]) ]}).

Lemma rounds_walks k : entries_are_walks (rounds k).
Proof.
  induction k as [|k IH]; simpl.
  - intros v d p Hv. apply lookup_singleton_Some in Hv as [<- ?].
    simplify_eq. constructor.
  - by apply relax_all_walks.
Qed.

Lemma rounds_source k : s ∈ dom (rounds k).
Proof.
  induction k as [|k IH]; simpl.
  - rewrite dom_singleton_L. set_solver.
  - by apply relax_list_dom_mono.
Qed.

Lemma rounds_upper k : dom (rounds k) ⊆ {[s]} ∪ targets.
Proof.
  induction k as [|k IH]; simpl.
  - rewrite dom_singleton_L. set_solver.
  - etrans; [apply relax_list_dom_upper|]. fold targets. set_solver.
Qed.

(** Until no edge leaves it, the set of nodes found grows by at least
    one node a round. *)
Lemma rounds_grow k :
  edge_closed (dom (rounds k)) \/ (k + 1 <= size (dom (rounds k)))%nat.
Proof.
  induction k as [|k [Hcl|Hsz]]; simpl.
  - right. rewrite dom_singleton_L, size_singleton. lia.
  - left. by rewrite relax_all_closed.
  - destruct (set_subseteq_inv_L (dom (rounds k)) (dom (relax_all (rounds k))))
      as [Hlt|Heq]; [apply relax_list_dom_mono| |].
    + right. apply subset_size in Hlt. lia.
    + left. rewrite <- Heq. by apply relax_all_fixed_closed.
Qed.

Lemma distances_closed :
  edge_closed (dom (Reference.distances weight G s)).
Proof.
  unfold Reference.distances.
  destruct (rounds_grow (size (g_adj G))) as [Hcl|Hsz]; [done|].
  assert (Heq : dom (rounds (size (g_adj G))) = {[s]} ∪ targets).
  { apply set_subseteq_size_eq; [apply rounds_upper|].
    etrans; [|exact Hsz].
    rewrite size_union_alt, size_singleton.
    pose proof size_targets.
    assert (size (targets ∖ {[s]}) <= size targets)%nat
      by (apply subseteq_size; set_solver).
    lia. }
  intros u v [d Huv] _. rewrite Heq. apply elem_of_union_r.
  unfold targets. apply elem_of_list_to_set.
  apply elem_of_map_to_list in Huv.
  apply (list_elem_of_fmap_2 fst) in Huv.
  by apply (list_elem_of_fmap_2 snd) in Huv.
Qed.

Lemma closed_reachable (D : gset node) t :
  edge_closed D -> s ∈ D -> reachable G s t -> t ∈ D.
Proof.
  intros Hcl Hs. revert t. unfold reachable.
  apply (rtc_ind_r (fun t => t ∈ D)); [done|].
  intros y z _ Hyz Hy. by eapply Hcl.
Qed.

Lemma distances_complete t :
  reachable G s t -> is_Some (Reference.distances weight G s !! t).
Proof.
  intros Hreach. apply elem_of_dom.
  eapply closed_reachable; [apply distances_closed| |done].
  apply rounds_source.
Qed.

Lemma distances_sound t d p :
  Reference.distances weight G s !! t = Some (d, p) -> walk G s t p.
Proof. apply rounds_walks. Qed.
End ReferenceSearch.

Lemma reference_shortest_path_contract :
  shortest_path_contract Reference.shortest_path.
Proof.
  split; intros G s.
  - intros t Hnot. eexists. unfold Reference.shortest_path.
    by rewrite decide_False.
  - intros Hs. unfold Reference.shortest_path.
    rewrite decide_True by done. by rewrite decide_True.
  - intros t Hs Ht Hno. eexists. unfold Reference.shortest_path.
    rewrite decide_True by done.
    rewrite decide_False by (intros ->; by apply Hno).
    destruct (Reference.distances "length" G s !! t) as [[d p]|] eqn:Hd; [|done].
    destruct Hno. eapply walk_reachable, distances_sound, Hd.
  - intros t Hs Ht Hreach. unfold Reference.shortest_path.
    rewrite decide_True by done.
    destruct (decide (s = t)) as [<-|Hne].
    + exists [s]. split; [done|]. apply walk_route_between. constructor.
    + destruct (distances_complete "length" G s t Hreach) as [[d p] Hd].
      rewrite Hd. exists p. split; [done|].
      eapply walk_route_between, distances_sound, Hd.
Qed.

(** ** The distance aggregator *)

Section Distance.
Context (G : DiGraph).

Lemma add_edge_length_step r acc i u v :
  r !! i = Some u -> r !! (i + 1)%nat = Some v ->
  add_edge_length G r acc i =
  (x ← py_get (get_edge_data G u v (PyInt 0)) "length" 0%Q; Val (acc + x)%Q).
Proof. intros Hu Hv. unfold add_edge_length, py_index. by rewrite Hu, Hv. Qed.

Lemma sum_lengths_cons u v rest acc :
  sum_lengths G (u :: v :: rest) acc =
  (x ← py_get (get_edge_data G u v (PyInt 0)) "length" 0%Q;
   sum_lengths G (v :: rest) (acc + x)%Q).
Proof. reflexivity. Qed.

Lemma for_loop_sum_lengths r : forall (todo : route) k acc,
  drop k r = todo ->
  for_loop (add_edge_length G r) acc (seq k (length todo - 1)) =
  sum_lengths G todo acc.
Proof.
  induction todo as [|u [|v rest] IH]; intros k acc Hdrop; [done..|].
  assert (Hu : r !! k = Some u).
  { pose proof (lookup_drop r k 0) as H0.
    rewrite Hdrop, Nat.add_0_r in H0. by symmetry. }
  assert (Hv : r !! (k + 1)%nat = Some v).
  { pose proof (lookup_drop r k 1) as H1. rewrite Hdrop in H1. by symmetry. }
  assert (Hnext : drop (S k) r = v :: rest).
  { pose proof (drop_drop r 1 k) as Hdd.
    rewrite Hdrop, Nat.add_1_r in Hdd. by symmetry. }
  specialize (IH (S k)).
  cbn [length Nat.sub seq for_loop] in *. rewrite Nat.sub_0_r in *.
  rewrite (add_edge_length_step r acc k u v Hu Hv), sum_lengths_cons.
  destruct (py_get _ _ _) as [x| |]; [|done..].
  cbn [mbind result_bind rbind]. by apply IH.
Qed.

Lemma py_get_edge u v d :
  g_adj G !! (u, v) = Some d ->
  py_get (get_edge_data G u v (PyInt 0)) "length" 0%Q =
  Val (edge_length G u v).
Proof. intros H. unfold get_edge_data, edge_length. by rewrite H. Qed.

Lemma py_get_no_edge u v :
  ~ has_edge G u v ->
  get_edge_data G u v (PyInt 0) = PyInt 0 /\
  py_get (get_edge_data G u v (PyInt 0)) "length" 0%Q = Exc int_has_no_get.
Proof.
  intros H. unfold get_edge_data, has_edge in *.
  destruct (g_adj G !! (u, v)); [|done]. destruct H. by eexists.
Qed.

Lemma sum_lengths_connected r : forall acc,
  route_connected G r ->
  sum_lengths G r acc = Val (fold_left Qplus (edge_lengths G r) acc).
Proof.
  induction r as [|u r IH]; intros acc Hr; [done|].
  destruct r as [|v rest]; [done|].
  apply route_connected_cons in Hr as [[d Hd] Hr].
  rewrite sum_lengths_cons, (py_get_edge u v d Hd).
  cbn [mbind result_bind rbind]. by rewrite IH.
Qed.

Lemma sum_lengths_gap r : forall acc i u v,
  r !! i = Some u -> r !! S i = Some v -> ~ has_edge G u v ->
  sum_lengths G r acc = Exc int_has_no_get.
Proof.
  induction r as [|a r IH]; intros acc i u v Hu Hv Hno; [done|].
  destruct r as [|b rest]; [by destruct i|].
  rewrite sum_lengths_cons.
  destruct (g_adj G !! (a, b)) as [d|] eqn:Hab.
  - rewrite (py_get_edge a b d Hab). cbn [mbind result_bind rbind].
    destruct i as [|i].
    + simpl in Hu, Hv. simplify_eq. destruct Hno. by eexists.
    + by eapply (IH _ i u v).
  - destruct (py_get_no_edge a b) as [_ ->]; [|done].
    intros [d Hd]. by rewrite Hab in Hd.
Qed.

Lemma sum_lengths_Val_connected r : forall acc,
  is_Val (sum_lengths G r acc) -> route_connected G r.
Proof.
  induction r as [|a r IH]; intros acc [km Hkm].
  - apply route_connected_nil.
  - destruct r as [|b rest]; [apply route_connected_singleton|].
    rewrite sum_lengths_cons in Hkm.
    destruct (g_adj G !! (a, b)) as [d|] eqn:Hab.
    + rewrite (py_get_edge a b d Hab) in Hkm.
      apply route_connected_cons. split; [by eexists|].
      eapply IH. by eexists.
    + destruct (py_get_no_edge a b) as [_ Hget].
      { intros [d Hd]. by rewrite Hab in Hd. }
      by rewrite Hget in Hkm.
Qed.

Lemma get_route_length_km_unfold r :
  get_route_length_km G r =
  (length ← sum_lengths G r 0%Q; py_truediv length 1000).
Proof.
  unfold get_route_length_km.
  by rewrite (for_loop_sum_lengths r r 0%nat 0%Q).
Qed.

(** On a connected route the result is the sum of the edge lengths,
    divided by 1000. *)
Lemma get_route_length_km_connected r :
  route_connected G r ->
  get_route_length_km G r =
  Val (fold_left Qplus (edge_lengths G r) 0 / 1000)%Q.
Proof.
  intros Hr. by rewrite get_route_length_km_unfold, sum_lengths_connected.
Qed.

Lemma get_route_length_km_Val_iff r :
  is_Val (get_route_length_km G r) <-> route_connected G r.
Proof.
  split.
  - rewrite get_route_length_km_unfold. intros [km Hkm].
    apply (sum_lengths_Val_connected r 0%Q).
    destruct (sum_lengths G r 0) as [m| |]; [by eexists|done..].
  - intros Hr. rewrite get_route_length_km_connected by done. by eexists.
Qed.

Lemma edge_lengths_snoc r u v :
  last r = Some u ->
  edge_lengths G (r ++ [v]) = edge_lengths G r ++ [edge_length G u v].
Proof.
  induction r as [|a r IH]; intros Hlast; [done|].
  destruct r as [|b rest].
  - simpl in Hlast. by simplify_eq.
  - rewrite last_cons_cons in Hlast.
    change (edge_lengths G ((a :: b :: rest) ++ [v]))
      with (edge_length G a b :: edge_lengths G ((b :: rest) ++ [v])).
    by rewrite IH.
Qed.

Lemma length_edge_lengths r :
  length (edge_lengths G r) = (length r - 1)%nat.
Proof.
  induction r as [|a r IH]; [done|]. destruct r as [|b rest]; [done|].
  change (edge_lengths G (a :: b :: rest))
    with (edge_length G a b :: edge_lengths G (b :: rest)).
  cbn [length] in *. lia.
Qed.

Lemma edge_lengths_lookup r : forall i u v,
  r !! i = Some u -> r !! S i = Some v ->
  edge_lengths G r !! i = Some (edge_length G u v).
Proof.
  induction r as [|a r IH]; intros i u v Hu Hv; [done|].
  destruct r as [|b rest]; [by destruct i|].
  change (edge_lengths G (a :: b :: rest))
    with (edge_length G a b :: edge_lengths G (b :: rest)).
  destruct i as [|i].
  - simpl in Hu, Hv. by simplify_eq.
  - by apply (IH i).
Qed.

Lemma edge_lengths_nonneg r :
  lengths_nonneg G r -> Forall (fun x => 0 <= x)%Q (edge_lengths G r).
Proof.
  induction r as [|a r IH]; intros Hnn; [constructor|].
  destruct r as [|b rest]; [constructor|].
  change (edge_lengths G (a :: b :: rest))
    with (edge_length G a b :: edge_lengths G (b :: rest)).
  constructor.
  - unfold edge_length.
    destruct (g_adj G !! (a, b)) as [d|] eqn:Hab; [|done].
    destruct (d !! "length") as [x|] eqn:Hx; [|done].
    by apply (Hnn 0%nat a b d x).
  - apply IH. intros i u v d x Hu Hv. by apply (Hnn (S i)).
Qed.
End Distance.

Lemma fold_left_Qplus_le (l : list Q) : forall acc,
  Forall (fun x => 0 <= x)%Q l -> (acc <= fold_left Qplus l acc)%Q.
Proof.
  induction l as [|x l IH]; intros acc Hl; simpl.
  - apply Qle_refl.
  - inversion_clear Hl as [|? ? Hx Hl']. eapply Qle_trans; [|by apply IH].
    rewrite <- (Qplus_0_r acc) at 1. by apply Qplus_le_compat; [apply Qle_refl|].
Qed.

Lemma Qdiv_1000_le (a b : Q) : (a <= b -> a / 1000 <= b / 1000)%Q.
Proof. intros H. by apply Qmult_le_compat_r. Qed.

Lemma Qdiv_1000_nonneg (a : Q) : (0 <= a -> 0 <= a / 1000)%Q.
Proof. intros H. by apply Qmult_le_0_compat. Qed.


(** ** Claims about the distance aggregator *)

(** C1, as stated, fails: on a route whose two nodes are not joined by
    an edge the call raises [AttributeError]. *)
Lemma get_route_length_km_raises_on_gap :
  ~ has_edge Sample.gap_graph 1 2 /\
  get_route_length_km Sample.gap_graph [1; 2] = Exc int_has_no_get /\
  raises (get_route_length_km Sample.gap_graph [1; 2]) /\
  ~ is_Val (get_route_length_km Sample.gap_graph [1; 2]).
Proof.
  split; [|split; [|split]].
  - intros [d Hd]. vm_compute in Hd. discriminate.
  - vm_compute. reflexivity.
  - exists int_has_no_get. vm_compute. reflexivity.
  - intros [km Hkm]. vm_compute in Hkm. discriminate.
Qed.

(** C1, amended.  On every route whose consecutive pairs are edges of the
    graph, [get_route_length_km] does not raise: it returns the sum, taken
    pair by pair in route order, of each edge's ['length'] (0 for an edge
    without one), divided by 1000. *)
Theorem get_route_length_km_sums_connected (G : DiGraph) (r : route) :
  route_connected G r ->
  get_route_length_km G r =
    Val (fold_left Qplus (edge_lengths G r) 0 / 1000)%Q /\
  length (edge_lengths G r) = (length r - 1)%nat /\
  forall i u v,
    r !! i = Some u -> r !! S i = Some v ->
    exists d,
      g_adj G !! (u, v) = Some d /\
      edge_lengths G r !! i = Some (default 0%Q (d !! "length")).
Proof.
  intros Hr. split; [by apply get_route_length_km_connected|].
  split; [apply length_edge_lengths|].
  intros i u v Hu Hv. destruct (Hr i u v Hu Hv) as [d Hd]. exists d.
  split; [done|]. rewrite (edge_lengths_lookup G r i u v Hu Hv).
  unfold edge_length. by rewrite Hd.
Qed.

(** C3.  When origin and destination are the same node [n] of the graph,
    [get_shortest_route] returns the one-node route [[n]], and the length
    of that route is 0 km. *)
Theorem same_node_route (w : world) (G : DiGraph) (n : node) :
  shortest_path_contract (nx_shortest_path w) ->
  has_node G n ->
  get_shortest_route w G n n =
    Script [NxShortestPath n n "length"] (Val (Some [n])) /\
  exists km, get_route_length_km G [n] = Val km /\ (km == 0)%Q.
Proof.
  intros Hsp Hn. split.
  - unfold get_shortest_route. by rewrite (sp_same_node _ Hsp G n Hn).
  - eexists. split; [reflexivity|]. reflexivity.
Qed.

(** C4.  On a route whose consecutive pairs are edges and whose lengths
    are non-negative, [get_route_length_km] returns a non-negative value,
    and appending one more edge of non-negative length does not decrease
    it. *)
Theorem route_length_nonneg_monotone (G : DiGraph) (r : route) :
  route_connected G r ->
  lengths_nonneg G r ->
  exists km,
    get_route_length_km G r = Val km /\ (0 <= km)%Q /\
    forall u v,
      last r = Some u -> has_edge G u v -> (0 <= edge_length G u v)%Q ->
      exists km', get_route_length_km G (r ++ [v]) = Val km' /\ (km <= km')%Q.
Proof.
  intros Hr Hnn. eexists. split; [by apply get_route_length_km_connected|].
  split.
  - by apply Qdiv_1000_nonneg, fold_left_Qplus_le, edge_lengths_nonneg.
  - intros u v Hlast Huv Hx. eexists. split.
    + apply get_route_length_km_connected. by eapply route_connected_snoc.
    + rewrite (edge_lengths_snoc G r u v Hlast), fold_left_app. simpl.
      apply Qdiv_1000_le.
      rewrite <- (Qplus_0_r (fold_left Qplus (edge_lengths G r) 0%Q)) at 1.
      by apply Qplus_le_compat; [apply Qle_refl|].
Qed.

(** C9.  [get_route_length_km] returns a value exactly on the routes
    whose consecutive pairs are all edges.  When some pair
    [(r[i], r[i+1])] is not an edge, [get_edge_data] hands back the
    integer 0, its [get] fails, and the call raises [AttributeError]
    instead of adding 0 to the sum. *)
Theorem get_route_length_km_total_only_on_connected (G : DiGraph) (r : route) :
  (is_Val (get_route_length_km G r) <-> route_connected G r) /\
  forall i u v,
    r !! i = Some u -> r !! (i + 1)%nat = Some v -> ~ has_edge G u v ->
    get_edge_data G u v (PyInt 0) = PyInt 0 /\
    py_get (PyInt 0) "length" 0%Q = Exc int_has_no_get /\
    get_route_length_km G r = Exc int_has_no_get.
Proof.
  split; [apply get_route_length_km_Val_iff|].
  intros i u v Hu Hv Hno. rewrite Nat.add_1_r in Hv.
  split; [by apply py_get_no_edge|]. split; [done|].
  rewrite get_route_length_km_unfold.
  by rewrite (sum_lengths_gap G r 0%Q i u v Hu Hv Hno).
Qed.

(** ** Equations of the script monad *)

Section ScriptMonad.
Context {A B : Type}.
Implicit Types (l : list event) (f : A -> script B).

Lemma bind_Val l (a : A) f : (Script l (Val a) ≫= f) = after l (f a).
Proof. reflexivity. Qed.

Lemma bind_Exc l e f : (Script (A:=A) l (Exc e) ≫= f) = Script l (Exc e).
Proof. reflexivity. Qed.

Lemma bind_Stop l f : (Script (A:=A) l Stop ≫= f) = Script l Stop.
Proof. reflexivity. Qed.

Lemma bind_after l (m : script A) f : (after l m ≫= f) = after l (m ≫= f).
Proof.
  destruct m as [l' [a| |]]; unfold after, mbind, script_bind, sbind; simpl;
    by rewrite ?app_assoc.
Qed.

Lemma after_Script l l' (r : result A) :
  after l (Script l' r) = Script (l ++ l') r.
Proof. reflexivity. Qed.

Lemma after_after l l' (m : script A) :
  after l (after l' m) = after (l ++ l') m.
Proof. unfold after. simpl. by rewrite app_assoc. Qed.
End ScriptMonad.

(** Runs the script forward through the binds whose left side is known. *)
Ltac script_run :=
  unfold st_title, st_error, st_warning, st_subheader, st_markdown,
    folium_static, st_stop, st_selectbox, st_button, call, mret, script_ret;
  repeat (first [ rewrite bind_Val | rewrite bind_Exc | rewrite bind_Stop
                | rewrite bind_after | rewrite after_after
                | rewrite after_Script ];
          cbv beta iota).

(** ** Claims about the orchestrator *)

Section Orchestrator.
Context (w : world).
Local Arguments nx_DiGraph : simpl never.

Lemma load_dehradun_graph_ok raw :
  ox_graph_from_place w place "drive" = Val raw ->
  load_dehradun_graph w =
  Script [OxGraphFromPlace place "drive"] (Val (Some (nx_DiGraph raw))).
Proof. intros H. unfold load_dehradun_graph, place in *. by rewrite H. Qed.

Lemma load_dehradun_graph_exc e :
  ox_graph_from_place w place "drive" = Exc e ->
  load_dehradun_graph w =
  Script [OxGraphFromPlace place "drive";
          StError ("Error loading map data: " +:+ exn_msg e)]
         (Val None).
Proof. intros H. unfold load_dehradun_graph, place in *. by rewrite H. Qed.

Lemma load_dehradun_graph_stop :
  ox_graph_from_place w place "drive" = Stop ->
  load_dehradun_graph w = Script [OxGraphFromPlace place "drive"] Stop.
Proof. intros H. unfold load_dehradun_graph, place in *. by rewrite H. Qed.

Lemma get_shortest_route_no_path G o d msg :
  nx_shortest_path w G o d "length" = Exc (Exn NetworkXNoPath msg) ->
  get_shortest_route w G o d =
  Script [NxShortestPath o d "length"; StError no_path_message] (Val None).
Proof. intros H. unfold get_shortest_route. by rewrite H. Qed.

Lemma main_load_failed e :
  ox_graph_from_place w place "drive" = Exc e ->
  main w =
  Script [StTitle title; OxGraphFromPlace place "drive";
          StError ("Error loading map data: " +:+ exn_msg e)] Stop.
Proof.
  intros H. unfold main. rewrite (load_dehradun_graph_exc e H).
  by script_run.
Qed.

Lemma main_load_stopped :
  ox_graph_from_place w place "drive" = Stop ->
  main w = Script [StTitle title; OxGraphFromPlace place "drive"] Stop.
Proof.
  intros H. unfold main. rewrite (load_dehradun_graph_stop H).
  by script_run.
Qed.

Lemma main_same_place raw :
  ox_graph_from_place w place "drive" = Val raw ->
  selectbox_choice w "Select start location:" location_names 0 =
  selectbox_choice w "Select destination:" location_names 1 ->
  main w =
  Script [StTitle title; OxGraphFromPlace place "drive";
          StSelectbox "Select start location:" location_names 0;
          StSelectbox "Select destination:" location_names 1;
          StWarning same_place_warning] Stop.
Proof.
  intros H Hsel. unfold main. rewrite (load_dehradun_graph_ok raw H).
  fold location_names. script_run. rewrite Hsel, String.eqb_refl.
  by script_run.
Qed.

Lemma main_no_path G o d msg :
  run_resolves w G o d ->
  nx_shortest_path w G o d "length" = Exc (Exn NetworkXNoPath msg) ->
  exists sc ec,
    main w =
    Script [StTitle title; OxGraphFromPlace place "drive";
            StSelectbox "Select start location:" location_names 0;
            StSelectbox "Select destination:" location_names 1;
            StButton "Find Shortest Route";
            OxNearestNodes sc.2 sc.1; OxNearestNodes ec.2 ec.1;
            NxShortestPath o d "length"; StError no_path_message;
            StError "No route found."] Stop.
Proof.
  intros (raw & sc & ec & Hraw & -> & Hne & Hbtn & Hsc & Hec & Ho & Hd) Hsp.
  exists sc, ec. unfold main. rewrite (load_dehradun_graph_ok raw Hraw).
  fold location_names. script_run.
  apply String.eqb_neq in Hne. rewrite Hne. script_run.
  rewrite Hbtn, Hsc. script_run. rewrite Hec. script_run.
  rewrite Ho. script_run. rewrite Hd. script_run.
  rewrite (get_shortest_route_no_path _ o d msg Hsp). by script_run.
Qed.
End Orchestrator.

(** C2.  When the destination cannot be reached from the origin, both
    nodes of the graph, [get_shortest_route] returns [None] and does not
    raise; the user is told so; and the run stops there, with no map and
    no distance readout. *)
Theorem no_path_is_reported_and_stops (w : world) (G : DiGraph) (o d : node) :
  shortest_path_contract (nx_shortest_path w) ->
  has_node G o -> has_node G d -> ~ reachable G o d ->
  get_shortest_route w G o d =
    Script [NxShortestPath o d "length"; StError no_path_message] (Val None) /\
  (run_resolves w G o d ->
   outcome (main w) = Stop /\
   (exists before,
      log (main w) =
      before ++ [NxShortestPath o d "length"; StError no_path_message;
                 StError "No route found."]) /\
   existsb is_map_display (log (main w)) = false /\
   existsb is_result_text (log (main w)) = false /\
   state_after (main w) = Idle).
Proof.
  intros Hsp Ho Hd Hno.
  destruct (sp_no_path _ Hsp G o d Ho Hd Hno) as [msg Hmsg].
  split; [by eapply get_shortest_route_no_path|].
  intros Hrun. destruct (main_no_path w G o d msg Hrun Hmsg) as (sc & ec & ->).
  repeat split.
  by exists [StTitle title; OxGraphFromPlace place "drive";
             StSelectbox "Select start location:" location_names 0;
             StSelectbox "Select destination:" location_names 1;
             StButton "Find Shortest Route";
             OxNearestNodes sc.2 sc.1; OxNearestNodes ec.2 ec.1].
Qed.

(** C6.  When the two selected names are the same, the route search is
    never invoked: the run stops, in the idle state, with no route, no
    distance readout and no map; once the graph is loaded, the last thing
    it shows is the warning. *)
Theorem identical_selection_never_routes (w : world) :
  selectbox_choice w "Select start location:" location_names 0 =
  selectbox_choice w "Select destination:" location_names 1 ->
  outcome (main w) = Stop /\
  existsb is_route_search (log (main w)) = false /\
  existsb is_map_display (log (main w)) = false /\
  existsb is_result_text (log (main w)) = false /\
  state_after (main w) = Idle /\
  forall raw,
    ox_graph_from_place w place "drive" = Val raw ->
    log (main w) =
    [StTitle title; OxGraphFromPlace place "drive";
     StSelectbox "Select start location:" location_names 0;
     StSelectbox "Select destination:" location_names 1;
     StWarning same_place_warning].
Proof.
  intros Hsel.
  destruct (ox_graph_from_place w place "drive") as [raw|e|] eqn:Hfetch.
  - rewrite (main_same_place w raw Hfetch Hsel). repeat split.
  - rewrite (main_load_failed w e Hfetch). repeat split. intros raw ?. done.
  - rewrite (main_load_stopped w Hfetch). repeat split. intros raw ?. done.
Qed.

(** C7.  When the fetch raises, [load_dehradun_graph] catches the
    exception, shows an error message that carries its text, and returns
    [None]; the orchestrator then stops the run before any widget is
    shown. *)
Theorem load_failure_halts (w : world) (e : exn) :
  ox_graph_from_place w place "drive" = Exc e ->
  load_dehradun_graph w =
    Script [OxGraphFromPlace place "drive";
            StError ("Error loading map data: " +:+ exn_msg e)] (Val None) /\
  main w =
    Script [StTitle title; OxGraphFromPlace place "drive";
            StError ("Error loading map data: " +:+ exn_msg e)] Stop /\
  existsb is_widget (log (main w)) = false.
Proof.
  intros Hfetch. split; [by apply load_dehradun_graph_exc|].
  rewrite (main_load_failed w e Hfetch). by split.
Qed.

(** ** The conversion to a simple graph *)

Lemma add_node_adj G n : g_adj (add_node G n) = g_adj G.
Proof. unfold add_node. by destruct (g_node G !! n). Qed.

Lemma add_edge_adj G u v k dd :
  g_adj (add_edge G (u, v, k, dd)) =
  <[(u, v) := dd ∪ default ∅ (g_adj G !! (u, v))]> (g_adj G).
Proof. unfold add_edge. cbn [g_adj]. by rewrite !add_node_adj. Qed.

Lemma parallel_cons_eq u v k dd es :
  parallel ((u, v, k, dd) :: es) u v = dd :: parallel es u v.
Proof. unfold parallel. by rewrite filter_cons_True. Qed.

Lemma parallel_cons_ne u' v' k dd es u v :
  (u', v') <> (u, v) ->
  parallel ((u', v', k, dd) :: es) u v = parallel es u v.
Proof. intros Hne. unfold parallel. by rewrite filter_cons_False. Qed.

Lemma foldl_add_edge_adj es : forall G u v,
  g_adj (foldl add_edge G es) !! (u, v) =
  collapse (g_adj G !! (u, v)) (parallel es u v).
Proof.
  induction es as [|[[[u' v'] k] dd] es IH]; intros G u v; [done|].
  cbn [foldl]. rewrite IH, add_edge_adj.
  destruct (decide ((u', v') = (u, v))) as [Heq|Hne].
  - simplify_eq. by rewrite lookup_insert_eq, parallel_cons_eq.
  - by rewrite lookup_insert_ne, parallel_cons_ne.
Qed.

Lemma collapse_is_Some old dds :
  is_Some (collapse old dds) <-> is_Some old \/ dds <> [].
Proof.
  revert old. induction dds as [|dd dds IH]; intros old.
  - simpl. naive_solver.
  - cbn [collapse foldl]. fold (collapse (Some (dd ∪ default ∅ old)) dds).
    rewrite IH. split; [by right|]. intros _. left. by eexists.
Qed.

Lemma parallel_nonempty es u v :
  parallel es u v <> [] <-> exists k dd, (u, v, k, dd) ∈ es.
Proof.
  unfold parallel. split.
  - intros Hne.
    destruct (filter (fun e => e.1.1 = (u, v)) es) as [|[[[u' v'] k] dd] l] eqn:Hf;
      [done|].
    assert (Hin : (u', v', k, dd) ∈ filter (fun e => e.1.1 = (u, v)) es)
      by (rewrite Hf; left).
    apply list_elem_of_filter in Hin as [Heq Hin]. simpl in Heq.
    simplify_eq. by exists k, dd.
  - intros (k & dd & Hin) Hnil.
    assert (Hf : (u, v, k, dd) ∈ filter (fun e => e.1.1 = (u, v)) es)
      by by apply list_elem_of_filter.
    apply (list_elem_of_fmap_2 (fun e => e.2)) in Hf.
    rewrite Hnil in Hf. by apply elem_of_nil in Hf.
Qed.

Lemma add_node_has_node G n m :
  has_node (add_node G n) m <-> m = n \/ has_node G m.
Proof.
  unfold add_node, has_node.
  destruct (g_node G !! n) as [d|] eqn:Hn.
  - split; [by right|]. intros [->|?]; [by eexists|done].
  - cbn [g_node]. rewrite lookup_insert_is_Some'. naive_solver.
Qed.

Lemma add_edge_wf G e : wf_graph G -> wf_graph (add_edge G e).
Proof.
  destruct e as [[[u v] k] dd]. intros Hwf a b.
  unfold has_edge. rewrite add_edge_adj, lookup_insert_is_Some'.
  unfold has_node, add_edge. cbn [g_node].
  fold (has_node (add_node (add_node G u) v) a).
  fold (has_node (add_node (add_node G u) v) b).
  rewrite !add_node_has_node.
  intros [Heq|Hab]; [simplify_eq; naive_solver|].
  destruct (Hwf a b Hab). naive_solver.
Qed.

Lemma foldl_add_edge_wf es : forall G,
  wf_graph G -> wf_graph (foldl add_edge G es).
Proof.
  induction es as [|e es IH]; intros G Hwf; [done|].
  cbn [foldl]. by apply IH, add_edge_wf.
Qed.

(** The converted graph keeps NetworkX's invariant: every edge joins two
    nodes of the graph. *)
Lemma nx_DiGraph_wf raw : wf_graph (nx_DiGraph raw).
Proof.
  intros u v Huv. unfold nx_DiGraph in *.
  set (G := foldl add_edge _ _) in *.
  assert (Hwf : wf_graph G).
  { apply foldl_add_edge_wf. intros a b [d Hd]. cbn [g_adj] in Hd.
    by rewrite lookup_empty in Hd. }
  destruct (Hwf u v Huv) as [[du Hu] [dv Hv]].
  unfold has_node. cbn [g_node]. rewrite !lookup_union_with, Hu, Hv.
  split; by destruct (mg_node raw !! _).
Qed.

Lemma nx_DiGraph_adj raw u v :
  g_adj (nx_DiGraph raw) !! (u, v) = collapse None (parallel (mg_edges raw) u v).
Proof. unfold nx_DiGraph. cbn [g_adj]. by rewrite foldl_add_edge_adj. Qed.

Lemma elem_of_edges G u v : (u, v) ∈ edges G <-> has_edge G u v.
Proof.
  unfold edges, has_edge. rewrite list_elem_of_fmap. split.
  - intros ([uv d] & Heq & Hin). simpl in Heq. subst uv.
    exists d. by apply elem_of_map_to_list.
  - intros [d Hd]. exists ((u, v), d). split; [done|].
    by apply elem_of_map_to_list.
Qed.

(** C5.  The graph that [load_dehradun_graph] returns after a successful
    fetch is simple: no ordered pair of nodes occurs twice among its
    edges, a pair carries an edge exactly when the raw multigraph has
    some edge between the two nodes, and all the parallel edges of a pair
    are folded into that one edge. *)
Theorem loaded_graph_is_simple (w : world) (G : DiGraph) :
  outcome (load_dehradun_graph w) = Val (Some G) ->
  exists raw,
    ox_graph_from_place w place "drive" = Val raw /\
    G = nx_DiGraph raw /\
    NoDup (edges G) /\
    (forall u v, (u, v) ∈ edges G <-> exists k dd, (u, v, k, dd) ∈ mg_edges raw) /\
    (forall u v,
       g_adj G !! (u, v) = collapse None (parallel (mg_edges raw) u v)).
Proof.
  intros Hload.
  destruct (ox_graph_from_place w place "drive") as [raw|e|] eqn:Hfetch.
  - rewrite (load_dehradun_graph_ok w raw Hfetch) in Hload.
    simpl in Hload. simplify_eq. exists raw. split; [done|]. split; [done|].
    split; [apply NoDup_fst_map_to_list|]. split.
    + intros u v. rewrite elem_of_edges. unfold has_edge.
      rewrite nx_DiGraph_adj, collapse_is_Some, <- parallel_nonempty.
      split; [|by right]. intros [[? [=]]|?]; done.
    + apply nx_DiGraph_adj.
  - by rewrite (load_dehradun_graph_exc w e Hfetch) in Hload.
  - by rewrite (load_dehradun_graph_stop w Hfetch) in Hload.
Qed.

(** ** The map renderer *)

Section Renderer.
Context (G : DiGraph).

Lemma node_coords_located n c :
  located_at G n c -> node_coords G n = Val c.
Proof.
  intros (d & Hd & Hy & Hx). destruct c as [y x]. simpl in *.
  unfold node_coords, nodes_getitem. rewrite Hd. cbn [mbind result_bind rbind].
  unfold attrs_getitem. by rewrite Hy, Hx.
Qed.

Lemma list_comp_located r :
  route_located G r ->
  exists coords,
    list_comp (node_coords G) r = Val coords /\ Forall2 (located_at G) r coords.
Proof.
  induction r as [|n r IH]; intros Hloc.
  - exists []. by split.
  - destruct IH as (coords & Hcomp & Hall).
    { intros m Hm. apply Hloc. by right. }
    destruct (Hloc n) as (d & y & x & Hd & Hy & Hx); [by left|].
    assert (Hn : located_at G n (y, x)) by by exists d.
    exists ((y, x) :: coords). split; [|by constructor].
    cbn [list_comp]. rewrite (node_coords_located n (y, x) Hn).
    cbn [mbind result_bind rbind]. by rewrite Hcomp.
Qed.

Lemma py_truediv_length {A} a (x : A) (xs : list A) :
  py_truediv a (inject_Z (Z.of_nat (length (x :: xs)))) =
  Val (a / inject_Z (Z.of_nat (length (x :: xs))))%Q.
Proof.
  unfold py_truediv.
  destruct (Qeq_bool _ 0) eqn:Hz; [|done].
  apply Qeq_bool_iff in Hz. unfold Qeq in Hz. simpl in Hz. lia.
Qed.

Lemma py_index_last_cons {A} (x : A) (xs : list A) :
  exists z, last (x :: xs) = Some z /\ py_index_last (x :: xs) = Val z.
Proof.
  unfold py_index_last.
  destruct (last (x :: xs)) as [z|] eqn:Hlast; [by exists z|].
  by apply last_None in Hlast.
Qed.

(** What [create_route_map] builds for a route that is not empty and
    whose nodes all have coordinates. *)
Lemma create_route_map_located r start_name end_name :
  r <> [] -> route_located G r ->
  exists coords first final,
    Forall2 (located_at G) r coords /\
    list_comp (node_coords G) r = Val coords /\
    head coords = Some first /\ last coords = Some final /\
    create_route_map G r start_name end_name =
    Val (MkMap
           ((py_sum (coords.*1) / inject_Z (Z.of_nat (length coords)))%Q,
            (py_sum (coords.*2) / inject_Z (Z.of_nat (length coords)))%Q)
           13
           [PolyLine coords "blue" 6 0.7%Q;
            Marker first ("Start: " +:+ start_name) "green";
            Marker final ("End: " +:+ end_name) "red"]).
Proof.
  intros Hne Hloc.
  destruct (list_comp_located r Hloc) as (coords & Hcomp & Hall).
  destruct coords as [|c coords].
  { apply Forall2_nil_inv_r in Hall. done. }
  destruct (py_index_last_cons c coords) as (final & Hlast & Hfinal).
  exists (c :: coords), c, final. repeat split; [done..|].
  unfold create_route_map. rewrite Hcomp. cbn [mbind result_bind rbind].
  rewrite !py_truediv_length. cbn [mbind result_bind rbind].
  change (py_index (c :: coords) 0) with (Val c). cbn [rbind].
  by rewrite Hfinal.
Qed.
End Renderer.

Lemma fold_left_Qplus_foldr (xs : list Q) : forall acc,
  (fold_left Qplus xs acc == acc + foldr Qplus 0 xs)%Q.
Proof.
  induction xs as [|x xs IH]; intros acc; simpl.
  - by rewrite Qplus_0_r.
  - rewrite IH. by rewrite Qplus_assoc.
Qed.

Lemma py_sum_mean (xs : list Q) :
  (py_sum xs / inject_Z (Z.of_nat (length xs)) == mean xs)%Q.
Proof.
  unfold py_sum, mean. by rewrite fold_left_Qplus_foldr, Qplus_0_l.
Qed.

(** C8.  For a route that is not empty (each of its nodes carrying its
    coordinates), [create_route_map] projects every node to its
    [(lat, lon)], centres the map on the arithmetic mean of these
    coordinates, draws one polyline through all of them in order, and
    puts the start marker on the first and the end marker on the last. *)
Theorem create_route_map_draws_route (G : DiGraph) (r : route)
    (start_name end_name : string) :
  r <> [] -> route_located G r ->
  exists coords first final m,
    Forall2 (located_at G) r coords /\
    head coords = Some first /\ last coords = Some final /\
    create_route_map G r start_name end_name = Val m /\
    ((map_location m).1 == mean (coords.*1))%Q /\
    ((map_location m).2 == mean (coords.*2))%Q /\
    map_children m =
      [PolyLine coords "blue" 6 0.7%Q;
       Marker first ("Start: " +:+ start_name) "green";
       Marker final ("End: " +:+ end_name) "red"].
Proof.
  intros Hne Hloc.
  destruct (create_route_map_located G r start_name end_name Hne Hloc)
    as (coords & first & final & Hall & _ & Hhd & Hlast & Hmap).
  exists coords, first, final. eexists. repeat split; [done..|exact Hmap| | |done].
  - cbn [map_location fst].
    rewrite <- (length_fmap fst coords). apply py_sum_mean.
  - cbn [map_location snd].
    rewrite <- (length_fmap snd coords). apply py_sum_mean.
Qed.

Lemma node_coords_Val_located G n c :
  node_coords G n = Val c ->
  exists d y x, g_node G !! n = Some d /\ d !! "y" = Some y /\ d !! "x" = Some x.
Proof.
  unfold node_coords, nodes_getitem, attrs_getitem.
  destruct (g_node G !! n) as [d|] eqn:Hd; [|done].
  cbn [mbind result_bind rbind].
  destruct (d !! "y") as [y|] eqn:Hy; [|done]. cbn [rbind].
  destruct (d !! "x") as [x|] eqn:Hx; [|done]. intros _. by exists d, y, x.
Qed.

Lemma list_comp_Val_located G r : forall coords,
  list_comp (node_coords G) r = Val coords -> route_located G r.
Proof.
  induction r as [|n r IH]; intros coords Hcomp m Hm.
  - by apply elem_of_nil in Hm.
  - cbn [list_comp] in Hcomp.
    destruct (node_coords G n) as [c| |] eqn:Hc; [|done..].
    cbn [mbind result_bind rbind] in Hcomp.
    destruct (list_comp (node_coords G) r) as [cs| |] eqn:Hcs; [|done..].
    apply elem_of_cons in Hm as [->|Hm].
    + by eapply node_coords_Val_located.
    + by eapply IH.
Qed.

Lemma create_route_map_Val_located G r start_name end_name :
  is_Val (create_route_map G r start_name end_name) ->
  r <> [] /\ route_located G r.
Proof.
  intros [m Hm]. split.
  - intros ->. discriminate Hm.
  - unfold create_route_map in Hm.
    destruct (list_comp (node_coords G) r) as [coords| |] eqn:Hcomp;
      [|done..].
    by eapply list_comp_Val_located.
Qed.

(** C10, as stated, fails: a route that is not empty does not succeed
    when one of its nodes is not a node of the graph; the comprehension
    raises [KeyError] before any division. *)
Lemma create_route_map_raises_off_graph :
  [9] <> ([] : route) /\
  g_node Sample.town !! 9 = None /\
  create_route_map Sample.town [9] "Clock Tower" "ISBT" =
    Exc (Exn KeyError "9") /\
  ~ is_Val (create_route_map Sample.town [9] "Clock Tower" "ISBT").
Proof.
  split; [done|]. split; [by vm_compute|]. split; [by vm_compute|].
  intros [m Hm]. vm_compute in Hm. discriminate.
Qed.

(** C10, amended.  [create_route_map] returns a map exactly on the routes
    that are not empty and whose nodes are all nodes of the graph
    carrying ['y'] and ['x'].  On the empty route the centre is a
    division by zero.  On a route of the first kind the two divisions
    and the two marker lookups succeed, and the map returned has their
    results as its centre and its markers, and one polyline through all
    the coordinates. *)
Theorem create_route_map_defined_on_located_routes (G : DiGraph) (r : route)
    (start_name end_name : string) :
  create_route_map G [] start_name end_name = Exc division_by_zero /\
  (is_Val (create_route_map G r start_name end_name) <->
   r <> [] /\ route_located G r) /\
  (r <> [] -> route_located G r ->
   exists coords lat lon first final,
     Forall2 (located_at G) r coords /\
     list_comp (node_coords G) r = Val coords /\
     py_truediv (py_sum (coords.*1)) (inject_Z (Z.of_nat (length coords)))
       = Val lat /\
     py_truediv (py_sum (coords.*2)) (inject_Z (Z.of_nat (length coords)))
       = Val lon /\
     py_index coords 0 = Val first /\
     py_index_last coords = Val final /\
     create_route_map G r start_name end_name =
       Val (MkMap (lat, lon) 13
              [PolyLine coords "blue" 6 0.7%Q;
               Marker first ("Start: " +:+ start_name) "green";
               Marker final ("End: " +:+ end_name) "red"])).
Proof.
  assert (Hpos : r <> [] -> route_located G r ->
    exists coords lat lon first final,
      Forall2 (located_at G) r coords /\
      list_comp (node_coords G) r = Val coords /\
      py_truediv (py_sum (coords.*1)) (inject_Z (Z.of_nat (length coords)))
        = Val lat /\
      py_truediv (py_sum (coords.*2)) (inject_Z (Z.of_nat (length coords)))
        = Val lon /\
      py_index coords 0 = Val first /\
      py_index_last coords = Val final /\
      create_route_map G r start_name end_name =
        Val (MkMap (lat, lon) 13
               [PolyLine coords "blue" 6 0.7%Q;
                Marker first ("Start: " +:+ start_name) "green";
                Marker final ("End: " +:+ end_name) "red"])).
  { intros Hne Hloc.
    destruct (create_route_map_located G r start_name end_name Hne Hloc)
      as (coords & first & final & Hall & Hcomp & Hhd & Hlast & Hmap).
    destruct coords as [|c coords]; [done|].
    exists (c :: coords). do 2 eexists. exists first, final.
    split; [done|]. split; [done|]. split; [apply py_truediv_length|].
    split; [apply py_truediv_length|].
    split; [simpl in Hhd; by simplify_eq|].
    split; [unfold py_index_last; by rewrite Hlast|].
    exact Hmap. }
  split; [reflexivity|]. split; [|exact Hpos].
  split; [apply create_route_map_Val_located|].
  intros [Hne Hloc].
  destruct (Hpos Hne Hloc) as (? & ? & ? & ? & ? & _ & _ & _ & _ & _ & _ & Hm).
  by eexists.
Qed.

(** ** The readout format *)

(** [format_2f] on the float of a decimal that lies halfway between two
    readouts: the binary64 value decides the side (1.015 and 2.675 are a
    little below the decimal, 8.345 a little above), and an exact tie
    (0.125) goes to the even digit. *)
Example format_2f_at_halfway_decimals :
  format_2f (1015 / 1000) = "1.01" /\
  format_2f 2.675 = "2.67" /\
  format_2f 8.345 = "8.35" /\
  format_2f 0.125 = "0.12" /\
  format_2f 0.375 = "0.38" /\
  format_2f 1.7 = "1.70" /\
  format_2f 0 = "0.00" /\
  format_2f (-0.001) = "-0.00".
Proof. vm_compute. done. Qed.

(** The float that holds one tenth. *)
Example to_binary64_one_tenth :
  (to_binary64 0.1 == 3602879701896397 # 36028797018963968)%Q.
Proof. by vm_compute. Qed.

(** ** The claims on the sample town *)

(** A whole run: Clock Tower to ISBT through the town. *)
Example through_town_run :
  outcome (main Runs.through_town) = Val tt /\
  state_after (main Runs.through_town) = Routed /\
  last (log (main Runs.through_town)) =
    Some (StMarkdown "**Distance:** 1.70 km") /\
  Reference.shortest_path Sample.town 1 3 "length" = Val [1; 2; 3].
Proof. vm_compute. done. Qed.

Lemma town_has_node n : n ∈ [1; 2; 3; 4] -> has_node Sample.town n.
Proof.
  intros Hn. repeat (apply elem_of_cons in Hn as [->|Hn]);
    [by vm_compute; eexists..|by apply elem_of_nil in Hn].
Qed.

Lemma town_isolated : ~ reachable Sample.town 1 4.
Proof.
  intros H. apply (distances_complete "length") in H.
  vm_compute in H. by destruct H.
Qed.

Lemma town_route_located : route_located Sample.town [1; 2; 3].
Proof.
  intros n Hn. repeat (apply elem_of_cons in Hn as [->|Hn]);
    [by vm_compute; do 3 eexists..|by apply elem_of_nil in Hn].
Qed.

Lemma town_route_connected : route_connected Sample.town [1; 2; 3].
Proof. apply get_route_length_km_Val_iff. vm_compute. by eexists. Qed.

Lemma town_lengths_nonneg : lengths_nonneg Sample.town [1; 2; 3].
Proof.
  intros i u v d x Hu Hv Hd Hx.
  destruct i as [|[|i]]; simpl in Hu, Hv; simplify_eq;
    vm_compute in Hd; simplify_eq; vm_compute in Hx; by simplify_eq.
Qed.

Lemma isolated_run_resolves : run_resolves Runs.isolated Sample.town 1 4.
Proof.
  exists Sample.town_raw, (30.3253, 78.0413)%Q, (30.2881, 78.0428)%Q.
  repeat split; done.
Qed.

Lemma no_path_is_reported_and_stops_witness :
  outcome (main Runs.isolated) = Stop /\
  existsb is_map_display (log (main Runs.isolated)) = false.
Proof.
  destruct (no_path_is_reported_and_stops Runs.isolated Sample.town 1 4)
    as [_ Hrun].
  - apply reference_shortest_path_contract.
  - apply town_has_node. set_solver.
  - apply town_has_node. set_solver.
  - apply town_isolated.
  - destruct (Hrun isolated_run_resolves) as (Hstop & _ & Hmap & _).
    by split.
Defined.

Lemma same_node_route_witness :
  get_shortest_route Runs.through_town Sample.town 2 2 =
  Script [NxShortestPath 2 2 "length"] (Val (Some [2])).
Proof.
  apply (same_node_route Runs.through_town Sample.town 2).
  - apply reference_shortest_path_contract.
  - apply town_has_node. set_solver.
Defined.

Lemma route_length_nonneg_monotone_witness :
  exists km, get_route_length_km Sample.town [1; 2; 3] = Val km /\ (0 <= km)%Q.
Proof.
  destruct (route_length_nonneg_monotone Sample.town [1; 2; 3])
    as (km & Hkm & Hpos & _).
  - apply town_route_connected.
  - apply town_lengths_nonneg.
  - by exists km.
Defined.

Lemma get_route_length_km_sums_connected_witness :
  get_route_length_km Sample.town [1; 2; 3] =
  Val (Qdiv (fold_left Qplus (edge_lengths Sample.town [1; 2; 3]) 0%Q) 1000%Q).
Proof.
  apply (get_route_length_km_sums_connected Sample.town [1; 2; 3]).
  apply town_route_connected.
Defined.

Lemma get_route_length_km_total_only_on_connected_witness :
  get_route_length_km Sample.town [1; 3; 2] = Exc int_has_no_get.
Proof.
  apply (proj2 (get_route_length_km_total_only_on_connected
                  Sample.town [1; 3; 2]) 0%nat 1 3); [done..|].
  intros [d Hd]. vm_compute in Hd. discriminate.
Defined.

Lemma loaded_graph_is_simple_witness : NoDup (edges Sample.town).
Proof.
  destruct (loaded_graph_is_simple Runs.through_town Sample.town)
    as (raw & _ & _ & Hnodup & _); [reflexivity|exact Hnodup].
Defined.

Lemma identical_selection_never_routes_witness :
  outcome (main Runs.same_name) = Stop /\
  existsb is_route_search (log (main Runs.same_name)) = false.
Proof.
  destruct (identical_selection_never_routes Runs.same_name)
    as (Hstop & Hsearch & _); [reflexivity|by split].
Defined.

Lemma load_failure_halts_witness :
  main Runs.offline =
  Script [StTitle title; OxGraphFromPlace place "drive";
          StError "Error loading map data: service unreachable"] Stop.
Proof.
  apply (load_failure_halts Runs.offline
           (Exn (OtherError "ConnectionError") "service unreachable")).
  reflexivity.
Defined.

Lemma create_route_map_draws_route_witness :
  is_Val (create_route_map Sample.town [1; 2; 3] "Clock Tower" "ISBT").
Proof.
  destruct (create_route_map_draws_route Sample.town [1; 2; 3]
              "Clock Tower" "ISBT")
    as (coords & first & final & m & _ & _ & _ & Hm & _);
    [done|apply town_route_located|by exists m].
Defined.

Lemma create_route_map_defined_on_located_routes_witness :
  create_route_map Sample.town [] "Clock Tower" "ISBT" = Exc division_by_zero /\
  is_Val (create_route_map Sample.town [1; 2; 3] "Clock Tower" "ISBT").
Proof.
  destruct (create_route_map_defined_on_located_routes Sample.town [1; 2; 3]
              "Clock Tower" "ISBT") as (Hempty & _ & Hrest).
  split; [exact Hempty|].
  destruct Hrest as (? & ? & ? & ? & ? & _ & _ & _ & _ & _ & _ & Hval);
    [done|apply town_route_located|by eexists].
Defined.

(** * Beyond the claims *)

(** ** Whole runs of the orchestrator *)

(** Runs [main] up to the route search of a request that resolves. *)
Ltac run_to_search Hraw Hne Hbtn Hsc Hec Ho Hd :=
  unfold main; rewrite (load_dehradun_graph_ok _ _ Hraw);
  fold location_names; script_run;
  apply String.eqb_neq in Hne; rewrite Hne; script_run;
  rewrite Hbtn, Hsc; script_run; rewrite Hec; script_run;
  rewrite Ho; script_run; rewrite Hd; script_run.

Section WholeRuns.
Context (w : world).
Local Arguments nx_DiGraph : simpl never.

Lemma get_shortest_route_found G o d r :
  nx_shortest_path w G o d "length" = Val r ->
  get_shortest_route w G o d =
  Script [NxShortestPath o d "length"] (Val (Some r)).
Proof. intros H. unfold get_shortest_route. by rewrite H. Qed.

Lemma get_shortest_route_uncaught G o d e :
  nx_shortest_path w G o d "length" = Exc e ->
  exn_cls e <> NetworkXNoPath ->
  get_shortest_route w G o d = Script [NxShortestPath o d "length"] (Exc e).
Proof.
  intros H Hcls. unfold get_shortest_route, try_except. rewrite H.
  cbn [mbind script_bind sbind call outcome log].
  unfold instance_of. by rewrite bool_decide_eq_false_2.
Qed.

Lemma main_found G o d r km m :
  run_resolves w G o d ->
  nx_shortest_path w G o d "length" = Val r ->
  get_route_length_km G r = Val km ->
  create_route_map G r
    (selectbox_choice w "Select start location:" location_names 0)
    (selectbox_choice w "Select destination:" location_names 1) = Val m ->
  exists sc ec,
    main w =
    Script [StTitle title; OxGraphFromPlace place "drive";
            StSelectbox "Select start location:" location_names 0;
            StSelectbox "Select destination:" location_names 1;
            StButton "Find Shortest Route";
            OxNearestNodes sc.2 sc.1; OxNearestNodes ec.2 ec.1;
            NxShortestPath o d "length";
            StSubheader
              (route_heading
                 (selectbox_choice w "Select start location:" location_names 0)
                 (selectbox_choice w "Select destination:" location_names 1));
            FoliumStatic m 800 500;
            StMarkdown (distance_readout km)] (Val tt).
Proof.
  intros (raw & sc & ec & Hraw & -> & Hne & Hbtn & Hsc & Hec & Ho & Hd)
    Hsp Hkm Hm.
  exists sc, ec. run_to_search Hraw Hne Hbtn Hsc Hec Ho Hd.
  rewrite (get_shortest_route_found _ o d r Hsp). script_run.
  rewrite Hkm. script_run. rewrite Hm. by script_run.
Qed.

Lemma main_search_uncaught G o d e :
  run_resolves w G o d ->
  nx_shortest_path w G o d "length" = Exc e ->
  exn_cls e <> NetworkXNoPath ->
  exists sc ec,
    main w =
    Script [StTitle title; OxGraphFromPlace place "drive";
            StSelectbox "Select start location:" location_names 0;
            StSelectbox "Select destination:" location_names 1;
            StButton "Find Shortest Route";
            OxNearestNodes sc.2 sc.1; OxNearestNodes ec.2 ec.1;
            NxShortestPath o d "length"] (Exc e).
Proof.
  intros (raw & sc & ec & Hraw & -> & Hne & Hbtn & Hsc & Hec & Ho & Hd)
    Hsp Hcls.
  exists sc, ec. run_to_search Hraw Hne Hbtn Hsc Hec Ho Hd.
  rewrite (get_shortest_route_uncaught _ o d e Hsp Hcls). by script_run.
Qed.

Lemma main_button_idle raw :
  ox_graph_from_place w place "drive" = Val raw ->
  selectbox_choice w "Select start location:" location_names 0 <>
  selectbox_choice w "Select destination:" location_names 1 ->
  button_pressed w "Find Shortest Route" = false ->
  main w =
  Script [StTitle title; OxGraphFromPlace place "drive";
          StSelectbox "Select start location:" location_names 0;
          StSelectbox "Select destination:" location_names 1;
          StButton "Find Shortest Route"] (Val tt).
Proof.
  intros Hraw Hne Hbtn. unfold main.
  rewrite (load_dehradun_graph_ok _ _ Hraw). fold location_names. script_run.
  apply String.eqb_neq in Hne. rewrite Hne. script_run.
  rewrite Hbtn. by script_run.
Qed.
End WholeRuns.

(** ** Routes found by the search *)

Lemma route_nodes_in G r : forall s,
  wf_graph G -> route_connected G r -> head r = Some s -> has_node G s ->
  forall n, n ∈ r -> has_node G n.
Proof.
  induction r as [|a r IH]; intros s Hwf Hr Hhd Hs n Hn; [done|].
  simpl in Hhd. simplify_eq. apply elem_of_cons in Hn as [->|Hn]; [done|].
  destruct r as [|b rest]; [by apply elem_of_nil in Hn|].
  apply route_connected_cons in Hr as [Hab Hr].
  apply (IH b); try done. by destruct (Hwf s b Hab).
Qed.

Lemma graph_located_route G r :
  graph_located G -> (forall n, n ∈ r -> has_node G n) -> route_located G r.
Proof. intros Hloc Hin n Hn. by apply Hloc, Hin. Qed.

Lemma reachable_distances G s t :
  reachable G s t <-> is_Some (Reference.distances "length" G s !! t).
Proof.
  split; [apply distances_complete|].
  intros [[d p] Hd]. eapply walk_reachable, distances_sound, Hd.
Qed.

Lemma reachable_or_not G s t : reachable G s t \/ ~ reachable G s t.
Proof.
  rewrite reachable_distances.
  destruct (Reference.distances "length" G s !! t); [left; by eexists|right].
  by intros [? ?].
Qed.

Lemma has_nodes_or_not G s t :
  (has_node G s /\ has_node G t) \/ ~ (has_node G s /\ has_node G t).
Proof.
  unfold has_node.
  destruct (g_node G !! s), (g_node G !! t);
    first [left; split; by eexists | right; intros [[? ?] [? ?]]; done].
Qed.

(** Under the contract, whatever the search returns is a route between
    the two nodes. *)
Lemma contract_Val_route_between sp G s t r :
  shortest_path_contract sp ->
  sp G s t "length" = Val r -> route_between G s t r.
Proof.
  intros Hsp Hr.
  destruct (has_nodes_or_not G s t) as [[Hs Ht]|Hno].
  - destruct (reachable_or_not G s t) as [Hreach|Hno].
    + destruct (sp_found _ Hsp G s t Hs Ht Hreach) as (r' & Hr' & Hbetween).
      rewrite Hr in Hr'. by simplify_eq.
    + destruct (sp_no_path _ Hsp G s t Hs Ht Hno) as [msg Hmsg].
      by rewrite Hr in Hmsg.
  - destruct (sp_node_not_found _ Hsp G s t Hno) as [msg Hmsg].
    by rewrite Hr in Hmsg.
Qed.

Lemma get_shortest_route_Some_inv w G o d r :
  outcome (get_shortest_route w G o d) = Val (Some r) ->
  nx_shortest_path w G o d "length" = Val r.
Proof.
  unfold get_shortest_route, try_except.
  destruct (nx_shortest_path w G o d "length") as [r'|e|] eqn:Hsp;
    cbn [mbind script_bind sbind call outcome log].
  - simpl. by intros [= ->].
  - destruct (instance_of NetworkXNoPath e); simpl; done.
  - done.
Qed.

(** X1.  A request that resolves to two nodes of the loaded graph, the
    second reachable from the first, every node carrying coordinates:
    the run ends normally after showing, in this order, the heading, the
    map of the route the search returned and the distance of that very
    route. *)
Theorem main_displays_route (w : world) (G : DiGraph) (o d : node) :
  shortest_path_contract (nx_shortest_path w) ->
  run_resolves w G o d ->
  has_node G o -> has_node G d -> reachable G o d ->
  graph_located G ->
  exists r km m sc ec,
    route_between G o d r /\
    get_route_length_km G r = Val km /\
    create_route_map G r
      (selectbox_choice w "Select start location:" location_names 0)
      (selectbox_choice w "Select destination:" location_names 1) = Val m /\
    main w =
      Script [StTitle title; OxGraphFromPlace place "drive";
              StSelectbox "Select start location:" location_names 0;
              StSelectbox "Select destination:" location_names 1;
              StButton "Find Shortest Route";
              OxNearestNodes sc.2 sc.1; OxNearestNodes ec.2 ec.1;
              NxShortestPath o d "length";
              StSubheader
                (route_heading
                   (selectbox_choice w "Select start location:" location_names 0)
                   (selectbox_choice w "Select destination:" location_names 1));
              FoliumStatic m 800 500;
              StMarkdown (distance_readout km)] (Val tt) /\
    state_after (main w) = Routed.
Proof.
  intros Hsp Hrun Ho Hd Hreach Hloc.
  destruct (sp_found _ Hsp G o d Ho Hd Hreach) as (r & Hr & Hbetween).
  pose proof Hbetween as (Hhd & Hlast & Hconn).
  assert (Hwf : wf_graph G).
  { destruct Hrun as (raw & _ & _ & _ & -> & _). apply nx_DiGraph_wf. }
  assert (Hne : r <> []) by (by destruct r).
  assert (Hrl : route_located G r).
  { apply graph_located_route; [done|]. by eapply route_nodes_in. }
  destruct (create_route_map_located G r
              (selectbox_choice w "Select start location:" location_names 0)
              (selectbox_choice w "Select destination:" location_names 1)
              Hne Hrl) as (coords & first & final & _ & _ & _ & _ & Hm).
  pose proof (get_route_length_km_connected G r Hconn) as Hkm.
  destruct (main_found w G o d r _ _ Hrun Hr Hkm Hm) as (sc & ec & Hmain).
  do 3 eexists. exists sc, ec. rewrite Hmain. by repeat split.
Qed.

(** X2.  With the graph loaded and two different names selected, a run
    in which the button is not pressed shows the two pickers and the
    button and ends normally: no nearest-node query, no route search, no
    map. *)
Theorem main_waits_for_button (w : world) (raw : MultiDiGraph) :
  ox_graph_from_place w place "drive" = Val raw ->
  selectbox_choice w "Select start location:" location_names 0 <>
  selectbox_choice w "Select destination:" location_names 1 ->
  button_pressed w "Find Shortest Route" = false ->
  main w =
    Script [StTitle title; OxGraphFromPlace place "drive";
            StSelectbox "Select start location:" location_names 0;
            StSelectbox "Select destination:" location_names 1;
            StButton "Find Shortest Route"] (Val tt) /\
  existsb is_nearest_query (log (main w)) = false /\
  existsb is_route_search (log (main w)) = false /\
  state_after (main w) = Idle.
Proof.
  intros Hraw Hne Hbtn. rewrite (main_button_idle w raw Hraw Hne Hbtn).
  by repeat split.
Qed.

(** X3.  [get_shortest_route] turns exactly one outcome of the search
    into [None]: [NetworkXNoPath].  It shows an error message in that
    case and in no other, and it hands a found route back unchanged. *)
Theorem get_shortest_route_outcomes (w : world) (G : DiGraph) (o d : node) :
  (outcome (get_shortest_route w G o d) = Val None <->
   exists msg, nx_shortest_path w G o d "length" = Exc (Exn NetworkXNoPath msg)) /\
  (existsb is_error_message (log (get_shortest_route w G o d)) = true <->
   exists msg, nx_shortest_path w G o d "length" = Exc (Exn NetworkXNoPath msg)) /\
  (forall r, outcome (get_shortest_route w G o d) = Val (Some r) <->
             nx_shortest_path w G o d "length" = Val r).
Proof.
  destruct (nx_shortest_path w G o d "length") as [r|[cls msg]|] eqn:Hsp.
  - rewrite (get_shortest_route_found w G o d r Hsp). simpl.
    repeat split; try done; try (by intros [? ?]); by intros [= ->].
  - destruct (decide (cls = NetworkXNoPath)) as [->|Hcls].
    + rewrite (get_shortest_route_no_path w G o d msg Hsp). simpl.
      repeat split; try done; by exists msg.
    + rewrite (get_shortest_route_uncaught w G o d _ Hsp Hcls). simpl.
      repeat split; try done; by intros [? [= ]].
  - unfold get_shortest_route, try_except. rewrite Hsp. simpl.
    repeat split; try done; by intros [? ?].
Qed.

(** X4.  An exception of the search other than [NetworkXNoPath] is not
    handled anywhere: [get_shortest_route] lets it through, and the run
    ends with that exception right after the search, with no error
    message and no map. *)
Theorem search_exception_is_unhandled (w : world) (G : DiGraph) (o d : node)
    (e : exn) :
  run_resolves w G o d ->
  nx_shortest_path w G o d "length" = Exc e ->
  exn_cls e <> NetworkXNoPath ->
  outcome (get_shortest_route w G o d) = Exc e /\
  outcome (main w) = Exc e /\
  last (log (main w)) = Some (NxShortestPath o d "length") /\
  existsb is_error_message (log (main w)) = false /\
  existsb is_map_display (log (main w)) = false.
Proof.
  intros Hrun Hsp Hcls.
  rewrite (get_shortest_route_uncaught w G o d e Hsp Hcls).
  destruct (main_search_uncaught w G o d e Hrun Hsp Hcls) as (sc & ec & ->).
  by repeat split.
Qed.

(** X5.  Under the contract of the search, every route that
    [get_shortest_route] returns runs from the origin to the destination
    along edges of the graph, so [get_route_length_km] returns a value on
    it: the [AttributeError] of a missing edge cannot occur. *)
Theorem searched_route_has_a_length (w : world) (G : DiGraph) (o d : node)
    (r : route) :
  shortest_path_contract (nx_shortest_path w) ->
  outcome (get_shortest_route w G o d) = Val (Some r) ->
  route_between G o d r /\
  get_route_length_km G r =
    Val (fold_left Qplus (edge_lengths G r) 0 / 1000)%Q.
Proof.
  intros Hsp Hr. apply get_shortest_route_Some_inv in Hr.
  pose proof (contract_Val_route_between _ G o d r Hsp Hr) as Hbetween.
  split; [done|]. apply get_route_length_km_connected. apply Hbetween.
Qed.

(** ** The graph provider *)

(** X6.  [load_dehradun_graph] never raises.  It returns [None] exactly
    when the fetch raised, and shows an error message exactly then. *)
Theorem load_dehradun_graph_outcomes (w : world) :
  ~ raises (outcome (load_dehradun_graph w)) /\
  (outcome (load_dehradun_graph w) = Val None <->
   raises (ox_graph_from_place w place "drive")) /\
  (existsb is_error_message (log (load_dehradun_graph w)) = true <->
   raises (ox_graph_from_place w place "drive")).
Proof.
  destruct (ox_graph_from_place w place "drive") as [raw|e|] eqn:Hfetch.
  - rewrite (load_dehradun_graph_ok w raw Hfetch). simpl.
    repeat split; try done; by intros [? ?].
  - rewrite (load_dehradun_graph_exc w e Hfetch). simpl.
    repeat split; try done; try (by intros [? ?]); by exists e.
  - rewrite (load_dehradun_graph_stop w Hfetch). simpl.
    repeat split; try done; by intros [? ?].
Qed.

(** X7.  Every graph that [load_dehradun_graph] returns keeps NetworkX's
    invariant: each of its edges joins two nodes of the graph. *)
Theorem loaded_graph_edges_join_nodes (w : world) (G : DiGraph) :
  outcome (load_dehradun_graph w) = Val (Some G) -> wf_graph G.
Proof.
  intros Hload.
  destruct (ox_graph_from_place w place "drive") as [raw|e|] eqn:Hfetch.
  - rewrite (load_dehradun_graph_ok w raw Hfetch) in Hload.
    simpl in Hload. simplify_eq. apply nx_DiGraph_wf.
  - by rewrite (load_dehradun_graph_exc w e Hfetch) in Hload.
  - by rewrite (load_dehradun_graph_stop w Hfetch) in Hload.
Qed.

(** ** What the conversion keeps *)

Lemma add_node_lookup_keep G n m a :
  g_node G !! m = Some a -> g_node (add_node G n) !! m = Some a.
Proof.
  intros Hm. unfold add_node. destruct (g_node G !! n) as [b|] eqn:Hn; [done|].
  cbn [g_node]. rewrite lookup_insert_ne; [done|]. intros ->.
  by rewrite Hm in Hn.
Qed.

Lemma foldl_add_edge_lookup_keep es : forall G m a,
  g_node G !! m = Some a -> g_node (foldl add_edge G es) !! m = Some a.
Proof.
  induction es as [|[[[u v] k] dd] es IH]; intros G m a Hm; [done|].
  cbn [foldl]. apply IH. unfold add_edge. cbn [g_node].
  by do 2 apply add_node_lookup_keep.
Qed.

Lemma collapse_snoc old dds dd :
  collapse old (dds ++ [dd]) = Some (dd ∪ default ∅ (collapse old dds)).
Proof. unfold collapse. by rewrite foldl_app. Qed.

Lemma collapse_last_carrier (key : string) (x : Q) pre dd : forall post,
  dd !! key = Some x ->
  Forall (fun p : attrs => p !! key = None) post ->
  exists a, collapse None (pre ++ dd :: post) = Some a /\ a !! key = Some x.
Proof.
  induction post as [|p post IH] using rev_ind; intros Hx Hpost.
  - rewrite collapse_snoc. eexists. split; [done|].
    by apply lookup_union_Some_l.
  - apply Forall_app in Hpost as [Hpost Hp].
    rewrite Forall_singleton in Hp.
    destruct (IH Hx Hpost) as (a & Ha & Hax).
    rewrite app_comm_cons, app_assoc, collapse_snoc, Ha.
    exists (p ∪ a). split; [done|]. by rewrite (lookup_union_r p a key Hp).
Qed.

(** X8.  The conversion to a simple graph keeps every node of the raw
    graph's node table with exactly its attributes; in particular a
    node's coordinates survive. *)
Theorem converted_graph_keeps_nodes (raw : MultiDiGraph) (n : node) (d : attrs) :
  mg_node raw !! n = Some d ->
  g_node (nx_DiGraph raw) !! n = Some d /\
  forall y x, d !! "y" = Some y -> d !! "x" = Some x ->
              node_coords (nx_DiGraph raw) n = Val (y, x).
Proof.
  intros Hd.
  assert (Hn : g_node (nx_DiGraph raw) !! n = Some d).
  { unfold nx_DiGraph. cbn [g_node]. rewrite lookup_union_with, Hd.
    erewrite foldl_add_edge_lookup_keep;
      [|cbn [g_node]; by rewrite lookup_fmap, Hd].
    simpl. by rewrite (right_id_L ∅ (∪)). }
  split; [done|]. intros y x Hy Hx.
  apply node_coords_located. by exists d.
Qed.

(** X9.  When the raw graph has several edges from [u] to [v], the
    ['length'] of the converted edge is the one of the last raw edge
    that carries a ['length'], whether or not an earlier one is
    shorter; that is what [get_route_length_km] adds for the pair. *)
Theorem converted_edge_takes_last_length (raw : MultiDiGraph) (u v : node)
    (pre post : list attrs) (dd : attrs) (x : Q) :
  parallel (mg_edges raw) u v = pre ++ dd :: post ->
  dd !! "length" = Some x ->
  Forall (fun p : attrs => p !! "length" = None) post ->
  edge_length (nx_DiGraph raw) u v = x /\
  get_route_length_km (nx_DiGraph raw) [u; v] = Val ((0 + x) / 1000)%Q.
Proof.
  intros Hpar Hx Hpost.
  destruct (collapse_last_carrier "length" x pre dd post Hx Hpost)
    as (a & Ha & Hax).
  assert (Hadj : g_adj (nx_DiGraph raw) !! (u, v) = Some a)
    by by rewrite nx_DiGraph_adj, Hpar.
  assert (Hlen : edge_length (nx_DiGraph raw) u v = x).
  { unfold edge_length. by rewrite Hadj, Hax. }
  split; [done|]. rewrite get_route_length_km_connected.
  - cbn [edge_lengths fold_left]. by rewrite Hlen.
  - apply route_connected_cons. split; [by exists a|].
    apply route_connected_singleton.
Qed.

(** ** More on the map renderer *)

Lemma list_comp_app_Val {A B} (f : A -> result B) pre post ys :
  list_comp f pre = Val ys ->
  list_comp f (pre ++ post) = (zs ← list_comp f post; Val (ys ++ zs)).
Proof.
  revert ys. induction pre as [|x pre IH]; intros ys Hys.
  - simpl in Hys. simplify_eq. simpl. by destruct (list_comp f post).
  - simpl in *. destruct (f x) as [y| |]; [|done..].
    cbn [mbind result_bind rbind] in *.
    destruct (list_comp f pre) as [ys'| |]; [|done..].
    cbn [mbind result_bind rbind] in Hys. simplify_eq.
    rewrite (IH ys' eq_refl).
    destruct (list_comp f post) as [zs| |]; reflexivity.
Qed.

Lemma create_route_map_first_failure G pre n post e start_name end_name :
  route_located G pre ->
  node_coords G n = Exc e ->
  create_route_map G (pre ++ n :: post) start_name end_name = Exc e.
Proof.
  intros Hpre Hn. destruct (list_comp_located G pre Hpre) as (ys & Hys & _).
  unfold create_route_map. rewrite (list_comp_app_Val _ pre (n :: post) ys Hys).
  cbn [list_comp]. by rewrite Hn.
Qed.

(** X11.  [create_route_map] fails at the first node of the route that
    it cannot place, whatever follows it: with [KeyError] on the node id
    when the graph has no such node, on ['y'] when the node has no
    latitude, and on ['x'] when it has a latitude but no longitude. *)
Theorem create_route_map_unplaced_node (G : DiGraph) (pre post : route)
    (n : node) (start_name end_name : string) :
  route_located G pre ->
  (g_node G !! n = None ->
   create_route_map G (pre ++ n :: post) start_name end_name =
   Exc (Exn KeyError (pretty n))) /\
  (forall d, g_node G !! n = Some d -> d !! "y" = None ->
   create_route_map G (pre ++ n :: post) start_name end_name =
   Exc (Exn KeyError "'y'")) /\
  (forall d y, g_node G !! n = Some d -> d !! "y" = Some y -> d !! "x" = None ->
   create_route_map G (pre ++ n :: post) start_name end_name =
   Exc (Exn KeyError "'x'")).
Proof.
  intros Hpre. repeat split.
  - intros Hn. apply create_route_map_first_failure; [done|].
    unfold node_coords, nodes_getitem. by rewrite Hn.
  - intros d Hn Hy. apply create_route_map_first_failure; [done|].
    unfold node_coords, nodes_getitem, attrs_getitem. rewrite Hn.
    cbn [mbind result_bind rbind]. by rewrite Hy.
  - intros d y Hn Hy Hx. apply create_route_map_first_failure; [done|].
    unfold node_coords, nodes_getitem, attrs_getitem. rewrite Hn.
    cbn [mbind result_bind rbind]. rewrite Hy. cbn [rbind]. by rewrite Hx.
Qed.

(** ** The location catalog *)

Lemma dict_getitem_Val {V} (d : list (string * V)) name :
  name ∈ d.*1 -> exists v, dict_getitem d name = Val v /\ (name, v) ∈ d.
Proof.
  induction d as [|[k v] d IH]; intros Hin; [by apply elem_of_nil in Hin|].
  cbn [dict_getitem]. destruct (String.eqb k name) eqn:Hk.
  - apply String.eqb_eq in Hk as ->. exists v. split; [done|]. by left.
  - apply String.eqb_neq in Hk. cbn [fmap list_fmap] in Hin.
    apply elem_of_cons in Hin as [->|Hin]; [done|].
    destruct (IH Hin) as (v' & Hv' & Hin'). exists v'. split; [done|].
    by right.
Qed.

Lemma dict_getitem_KeyError {V} (d : list (string * V)) name :
  name ∉ d.*1 ->
  dict_getitem d name = Exc (Exn KeyError ("'" +:+ name +:+ "'")).
Proof.
  induction d as [|[k v] d IH]; intros Hin; [done|].
  cbn [dict_getitem]. cbn [fmap list_fmap] in Hin.
  apply not_elem_of_cons in Hin as [Hne Hin].
  destruct (String.eqb k name) eqn:Hk.
  - apply String.eqb_eq in Hk. by subst.
  - by apply IH.
Qed.

(** X12.  The names offered by the two pickers are exactly the names the
    catalog can resolve: looking up an offered name gives its catalog
    entry, and looking up any other name raises [KeyError] on that
    name.  No name is offered twice. *)
Theorem offered_names_resolve (name : string) :
  NoDup location_names /\
  (name ∈ location_names ->
   exists c, dict_getitem get_locations name = Val c /\
             (name, c) ∈ get_locations) /\
  (name ∉ location_names ->
   dict_getitem get_locations name =
   Exc (Exn KeyError ("'" +:+ name +:+ "'"))).
Proof.
  split; [|split].
  - apply (bool_decide_unpack (NoDup location_names)). by vm_compute.
  - apply dict_getitem_Val.
  - apply dict_getitem_KeyError.
Qed.

(** ** When a map is shown *)

(** X13.  Two different names that resolve to the same node [n] are not
    stopped by the identical-name guard: the run shows a map whose
    polyline is the single point of [n], with the start and the end
    marker both on it, and a distance of 0.00 km. *)
Theorem different_names_same_junction (w : world) (G : DiGraph) (n : node)
    (d : attrs) (y x : Q) :
  shortest_path_contract (nx_shortest_path w) ->
  run_resolves w G n n ->
  g_node G !! n = Some d -> d !! "y" = Some y -> d !! "x" = Some x ->
  exists sc ec m,
    main w =
      Script [StTitle title; OxGraphFromPlace place "drive";
              StSelectbox "Select start location:" location_names 0;
              StSelectbox "Select destination:" location_names 1;
              StButton "Find Shortest Route";
              OxNearestNodes sc.2 sc.1; OxNearestNodes ec.2 ec.1;
              NxShortestPath n n "length";
              StSubheader
                (route_heading
                   (selectbox_choice w "Select start location:" location_names 0)
                   (selectbox_choice w "Select destination:" location_names 1));
              FoliumStatic m 800 500;
              StMarkdown "**Distance:** 0.00 km"] (Val tt) /\
    map_children m =
      [PolyLine [(y, x)] "blue" 6 0.7%Q;
       Marker (y, x)
         ("Start: " +:+
          selectbox_choice w "Select start location:" location_names 0)
         "green";
       Marker (y, x)
         ("End: " +:+
          selectbox_choice w "Select destination:" location_names 1)
         "red"].
Proof.
  intros Hsp Hrun Hd Hy Hx.
  assert (Hn : has_node G n) by by exists d.
  pose proof (sp_same_node _ Hsp G n Hn) as Hr.
  assert (Hc : node_coords G n = Val (y, x)).
  { apply node_coords_located. by exists d. }
  assert (Hm : forall s e, create_route_map G [n] s e =
            Val (MkMap ((0 + y) / 1, (0 + x) / 1)%Q 13
                   [PolyLine [(y, x)] "blue" 6 0.7%Q;
                    Marker (y, x) ("Start: " +:+ s) "green";
                    Marker (y, x) ("End: " +:+ e) "red"])).
  { intros s e. unfold create_route_map. cbn [list_comp]. by rewrite Hc. }
  destruct (main_found w G n n [n] _ _ Hrun Hr eq_refl (Hm _ _))
    as (sc & ec & Hmain).
  exists sc, ec. eexists. split; [exact Hmain|done].
Qed.

(** X14.  A map is shown only in a run where the two names differ, the
    button was pressed, the route search was made, and every step
    succeeded; such a run ends normally and its last output is the
    distance readout. *)
Theorem map_only_after_success (w : world) :
  existsb is_map_display (log (main w)) = true ->
  selectbox_choice w "Select start location:" location_names 0 <>
  selectbox_choice w "Select destination:" location_names 1 /\
  button_pressed w "Find Shortest Route" = true /\
  existsb is_route_search (log (main w)) = true /\
  existsb is_error_message (log (main w)) = false /\
  outcome (main w) = Val tt /\
  exists km, last (log (main w)) = Some (StMarkdown (distance_readout km)).
Proof.
  unfold main.
  destruct (ox_graph_from_place w place "drive") as [raw|e|] eqn:Hfetch;
    [rewrite (load_dehradun_graph_ok w raw Hfetch)
    |rewrite (load_dehradun_graph_exc w e Hfetch); script_run; by simpl
    |rewrite (load_dehradun_graph_stop w Hfetch); script_run; by simpl].
  fold location_names. script_run.
  destruct (String.eqb _ _) eqn:Hsel; script_run; [by simpl|].
  apply String.eqb_neq in Hsel.
  destruct (button_pressed w "Find Shortest Route") eqn:Hbtn;
    script_run; [|by simpl].
  destruct (dict_getitem get_locations
              (selectbox_choice w "Select start location:" location_names 0))
    as [sc| |]; script_run; [|by simpl..].
  destruct (dict_getitem get_locations
              (selectbox_choice w "Select destination:" location_names 1))
    as [ec| |]; script_run; [|by simpl..].
  destruct (ox_nearest_nodes w _ sc.2 sc.1) as [o| |]; script_run;
    [|by simpl..].
  destruct (ox_nearest_nodes w _ ec.2 ec.1) as [d| |]; script_run;
    [|by simpl..].
  destruct (nx_shortest_path w (nx_DiGraph raw) o d "length")
    as [r|[cls msg]|] eqn:Hsp.
  - rewrite (get_shortest_route_found w _ o d r Hsp). script_run.
    destruct (get_route_length_km _ r) as [km| |]; script_run; [|by simpl..].
    destruct (create_route_map _ r _ _) as [m| |]; script_run; [|by simpl..].
    intros _. repeat split; try done. by exists km.
  - destruct (decide (cls = NetworkXNoPath)) as [->|Hcls].
    + rewrite (get_shortest_route_no_path w _ o d msg Hsp). script_run.
      by simpl.
    + rewrite (get_shortest_route_uncaught w _ o d _ Hsp Hcls). script_run.
      by simpl.
  - unfold get_shortest_route, try_except. rewrite Hsp.
    cbn [mbind script_bind sbind call outcome log]. script_run. by simpl.
Qed.

(** A run that shows an error message: the fetch raised, or the request
    of this very run resolved to two nodes [o] and [d] of the loaded
    graph and the search between them raised [NetworkXNoPath]. *)
Lemma main_error_message_inv (w : world) :
  existsb is_error_message (log (main w)) = true ->
  outcome (main w) = Stop /\
  existsb is_map_display (log (main w)) = false /\
  (raises (ox_graph_from_place w place "drive") \/
   exists G o d msg,
     run_resolves w G o d /\
     nx_shortest_path w G o d "length" = Exc (Exn NetworkXNoPath msg)).
Proof.
  unfold main.
  destruct (ox_graph_from_place w place "drive") as [raw|e|] eqn:Hfetch;
    [rewrite (load_dehradun_graph_ok w raw Hfetch)
    |rewrite (load_dehradun_graph_exc w e Hfetch); script_run; simpl;
       intros _; repeat split; left; by exists e
    |rewrite (load_dehradun_graph_stop w Hfetch); script_run; by simpl].
  fold location_names. script_run.
  destruct (String.eqb _ _) eqn:Hsel; script_run; [by simpl|].
  apply String.eqb_neq in Hsel.
  destruct (button_pressed w "Find Shortest Route") eqn:Hbtn;
    script_run; [|by simpl].
  destruct (dict_getitem get_locations
              (selectbox_choice w "Select start location:" location_names 0))
    as [sc| |] eqn:Hsc; script_run; [|by simpl..].
  destruct (dict_getitem get_locations
              (selectbox_choice w "Select destination:" location_names 1))
    as [ec| |] eqn:Hec; script_run; [|by simpl..].
  destruct (ox_nearest_nodes w (nx_DiGraph raw) sc.2 sc.1) as [o| |] eqn:Ho;
    script_run; [|by simpl..].
  destruct (ox_nearest_nodes w (nx_DiGraph raw) ec.2 ec.1) as [d| |] eqn:Hd;
    script_run; [|by simpl..].
  destruct (nx_shortest_path w (nx_DiGraph raw) o d "length")
    as [r|[cls msg]|] eqn:Hsp.
  - rewrite (get_shortest_route_found w _ o d r Hsp). script_run.
    destruct (get_route_length_km _ r) as [km| |]; script_run; [|by simpl..].
    destruct (create_route_map _ r _ _) as [m| |]; script_run; by simpl.
  - destruct (decide (cls = NetworkXNoPath)) as [->|Hcls].
    + rewrite (get_shortest_route_no_path w _ o d msg Hsp). script_run.
      simpl. intros _. split; [done|]. split; [done|]. right.
      exists (nx_DiGraph raw), o, d, msg. split; [|done].
      by exists raw, sc, ec.
    + rewrite (get_shortest_route_uncaught w _ o d _ Hsp Hcls). script_run.
      by simpl.
  - unfold get_shortest_route, try_except. rewrite Hsp.
    cbn [mbind script_bind sbind call outcome log]. script_run. by simpl.
Qed.

(** X15.  [main] shows an error message exactly in two situations: the
    fetch raised, or the request of the run resolved to two nodes of the
    loaded graph and the route search between these two nodes raised
    [NetworkXNoPath].  A run that shows one stops, with no map; every
    other failure is shown nothing for. *)
Theorem error_message_only_for_load_or_no_path (w : world) :
  (existsb is_error_message (log (main w)) = true <->
   raises (ox_graph_from_place w place "drive") \/
   exists G o d msg,
     run_resolves w G o d /\
     nx_shortest_path w G o d "length" = Exc (Exn NetworkXNoPath msg)) /\
  (existsb is_error_message (log (main w)) = true ->
   outcome (main w) = Stop /\
   existsb is_map_display (log (main w)) = false).
Proof.
  split; [split|].
  - intros Herr. by destruct (main_error_message_inv w Herr) as (_ & _ & ?).
  - intros [[e He]|(G & o & d & msg & Hrun & Hsp)].
    + by rewrite (main_load_failed w e He).
    + by destruct (main_no_path w G o d msg Hrun Hsp) as (sc & ec & ->).
  - intros Herr. by destruct (main_error_message_inv w Herr) as (? & ? & _).
Qed.

(** ** Instances on the sample town *)

Lemma town_graph_located : graph_located Sample.town.
Proof.
  intros n [d Hd]. apply elem_of_map_to_list in Hd. vm_compute in Hd.
  repeat (apply elem_of_cons in Hd as [Hd|Hd];
          [simplify_eq; by vm_compute; do 3 eexists|]).
  by apply elem_of_nil in Hd.
Qed.

Lemma town_reachable_1_3 : reachable Sample.town 1 3.
Proof. apply reachable_distances. vm_compute. by eexists. Qed.

Lemma through_town_run_resolves :
  run_resolves Runs.through_town Sample.town 1 3.
Proof.
  exists Sample.town_raw, (30.3253, 78.0413)%Q, (30.2881, 78.0428)%Q.
  repeat split; done.
Qed.

Lemma same_junction_run_resolves :
  run_resolves MoreRuns.same_junction Sample.town 2 2.
Proof.
  exists Sample.town_raw, (30.3253, 78.0413)%Q, (30.2881, 78.0428)%Q.
  repeat split; done.
Qed.

Lemma outside_run_resolves : run_resolves MoreRuns.outside Sample.town 1 9.
Proof.
  exists Sample.town_raw, (30.3253, 78.0413)%Q, (30.2881, 78.0428)%Q.
  repeat split; done.
Qed.

Lemma main_displays_route_witness :
  state_after (main Runs.through_town) = Routed.
Proof.
  destruct (main_displays_route Runs.through_town Sample.town 1 3)
    as (r & km & m & sc & ec & _ & _ & _ & _ & Hstate).
  - apply reference_shortest_path_contract.
  - apply through_town_run_resolves.
  - apply town_has_node. set_solver.
  - apply town_has_node. set_solver.
  - apply town_reachable_1_3.
  - apply town_graph_located.
  - exact Hstate.
Defined.

Lemma main_waits_for_button_witness :
  existsb is_route_search (log (main MoreRuns.idle)) = false.
Proof.
  destruct (main_waits_for_button MoreRuns.idle Sample.town_raw)
    as (_ & _ & Hsearch & _); [reflexivity|done|reflexivity|exact Hsearch].
Defined.

Lemma search_exception_is_unhandled_witness :
  outcome (main MoreRuns.outside) =
  Exc (Exn NodeNotFound "Either source 1 or target 9 is not in G").
Proof.
  destruct (search_exception_is_unhandled MoreRuns.outside Sample.town 1 9
              (Exn NodeNotFound "Either source 1 or target 9 is not in G"))
    as (_ & Hmain & _).
  - apply outside_run_resolves.
  - by vm_compute.
  - done.
  - exact Hmain.
Defined.

Lemma searched_route_has_a_length_witness :
  route_between Sample.town 1 3 [1; 2; 3].
Proof.
  apply (searched_route_has_a_length Runs.through_town Sample.town 1 3
           [1; 2; 3]).
  - apply reference_shortest_path_contract.
  - by vm_compute.
Defined.

Lemma loaded_graph_edges_join_nodes_witness : wf_graph Sample.town.
Proof.
  apply (loaded_graph_edges_join_nodes Runs.through_town Sample.town).
  reflexivity.
Defined.

Lemma converted_graph_keeps_nodes_witness :
  g_node Sample.town !! 1 = Some (Sample.at_ 30.3253 78.0413).
Proof.
  apply (converted_graph_keeps_nodes Sample.town_raw 1
           (Sample.at_ 30.3253 78.0413)).
  by vm_compute.
Defined.

Lemma converted_edge_takes_last_length_witness :
  edge_length Sample.town 1 2 = 1700%Q.
Proof.
  apply (converted_edge_takes_last_length Sample.town_raw 1 2
           [{[ "length" := 1500%Q; "lanes" := 2%Q ]}]
           [] {[ "length" := 1700%Q ]} 1700%Q).
  - reflexivity.
  - by vm_compute.
  - constructor.
Defined.

Lemma create_route_map_unplaced_node_witness :
  create_route_map Sample.town ([1] ++ 9 :: [2]) "Clock Tower" "ISBT" =
  Exc (Exn KeyError "9").
Proof.
  apply (create_route_map_unplaced_node Sample.town [1] [2] 9
           "Clock Tower" "ISBT").
  - intros n Hn. apply list_elem_of_singleton in Hn as ->.
    by vm_compute; do 3 eexists.
  - by vm_compute.
Defined.

Lemma offered_names_resolve_witness :
  exists c, dict_getitem get_locations "ISBT" = Val c.
Proof.
  destruct (offered_names_resolve "ISBT") as (_ & Hin & _).
  destruct Hin as (c & Hc & _); [|by exists c].
  unfold location_names. vm_compute. set_solver.
Defined.

Lemma different_names_same_junction_witness :
  last (log (main MoreRuns.same_junction)) =
    Some (StMarkdown "**Distance:** 0.00 km") /\
  existsb is_map_display (log (main MoreRuns.same_junction)) = true.
Proof.
  destruct (different_names_same_junction MoreRuns.same_junction Sample.town 2
              (Sample.at_ 30.3000 78.0420) 30.3000%Q 78.0420%Q)
    as (sc & ec & m & Hmain & _).
  - apply reference_shortest_path_contract.
  - apply same_junction_run_resolves.
  - by vm_compute.
  - by vm_compute.
  - by vm_compute.
  - rewrite Hmain. by split.
Defined.

Lemma map_only_after_success_witness :
  outcome (main Runs.through_town) = Val tt.
Proof.
  destruct (map_only_after_success Runs.through_town)
    as (_ & _ & _ & _ & Hout & _); [by vm_compute|exact Hout].
Defined.

Lemma error_message_only_for_load_or_no_path_witness :
  outcome (main Runs.isolated) = Stop /\
  exists G o d msg,
    run_resolves Runs.isolated G o d /\
    nx_shortest_path Runs.isolated G o d "length" =
      Exc (Exn NetworkXNoPath msg).
Proof.
  destruct (error_message_only_for_load_or_no_path Runs.isolated)
    as (Hiff & Hstop).
  assert (Herr : existsb is_error_message (log (main Runs.isolated)) = true)
    by by vm_compute.
  split; [by destruct (Hstop Herr)|].
  destruct (proj1 Hiff Herr) as [[e He]|Hsearch]; [|exact Hsearch].
  vm_compute in He. discriminate.
Defined.
